(** * A playing-card deck (oop_p2.py): shallow embedding and verified properties

    The Python module defines two enumerations ([CardSuit], [CardRank]), an
    immutable value class [Card], the decorator [fair_deck] and the mutable
    class [Deck].  Python objects that are mutated in place (the list behind
    [Deck._cards] and the [Deck] instance itself) live in a store indexed by
    references, so that the copy made by the [cards] accessor and the alias
    returned by [__iter__] are modelled as they are in the program. *)

From Stdlib Require Import ZArith String Ascii List Lia Bool.
From stdpp Require Import base gmap list strings pretty.

Local Open Scope Z_scope.

(** ** Enumerations *)

Inductive CardSuit := CLUBS | DIAMONDS | HEARTS | SPADES.

Inductive CardRank :=
  | TWO | THREE | FOUR | FIVE | SIX | SEVEN | EIGHT | NINE | TEN
  | JACK | QUEEN | KING | ACE.

Module Suit.
(** The [value] attribute of a member. *)
Definition value (s : CardSuit) : Z :=
  match s with CLUBS => 1 | DIAMONDS => 2 | HEARTS => 3 | SPADES => 4 end.

(** The [name] attribute of a member. *)
Definition name (s : CardSuit) : string :=
  match s with
  | CLUBS => "CLUBS" | DIAMONDS => "DIAMONDS"
  | HEARTS => "HEARTS" | SPADES => "SPADES"
  end.

(** [for s in CardSuit]: members in definition order. *)
Definition members : list CardSuit := [CLUBS; DIAMONDS; HEARTS; SPADES].

(** Position of a member in the definition order. *)
Definition ordinal (s : CardSuit) : nat :=
  match s with CLUBS => 0 | DIAMONDS => 1 | HEARTS => 2 | SPADES => 3 end%nat.
End Suit.

Module Rank.
Definition value (r : CardRank) : Z :=
  match r with
  | TWO => 2 | THREE => 3 | FOUR => 4 | FIVE => 5 | SIX => 6 | SEVEN => 7
  | EIGHT => 8 | NINE => 9 | TEN => 10 | JACK => 11 | QUEEN => 12
  | KING => 13 | ACE => 14
  end.

Definition name (r : CardRank) : string :=
  match r with
  | TWO => "TWO" | THREE => "THREE" | FOUR => "FOUR" | FIVE => "FIVE"
  | SIX => "SIX" | SEVEN => "SEVEN" | EIGHT => "EIGHT" | NINE => "NINE"
  | TEN => "TEN" | JACK => "JACK" | QUEEN => "QUEEN" | KING => "KING"
  | ACE => "ACE"
  end.

Definition members : list CardRank :=
  [TWO; THREE; FOUR; FIVE; SIX; SEVEN; EIGHT; NINE; TEN; JACK; QUEEN; KING; ACE].

Definition ordinal (r : CardRank) : nat :=
  match r with
  | TWO => 0 | THREE => 1 | FOUR => 2 | FIVE => 3 | SIX => 4 | SEVEN => 5
  | EIGHT => 6 | NINE => 7 | TEN => 8 | JACK => 9 | QUEEN => 10
  | KING => 11 | ACE => 12
  end%nat.
End Rank.

(** Enum members are singletons and [Enum] keeps the default identity
    comparison, so [==] on members is equality of constructors. *)
#[global] Instance CardSuit_eq_dec : EqDecision CardSuit.
Proof. solve_decision. Defined.

#[global] Instance CardRank_eq_dec : EqDecision CardRank.
Proof. solve_decision. Defined.

(** ** Cards *)

Record Card := mkCard { _suit : CardSuit; _rank : CardRank }.

#[global] Instance Card_eq_dec : EqDecision Card.
Proof. solve_decision. Defined.

(** ** Python values, objects and exceptions *)

Definition loc := positive.

Inductive Value :=
  | VNone
  | VNotImplemented
  | VBool (b : bool)
  | VInt (z : Z)
  | VStr (s : string)
  | VCard (c : Card)
  | VRef (l : loc).

Record Deck := mkDeck { _cards : loc; _index : Z }.

Inductive Obj :=
  | OList (items : list Card)
  | ODeck (d : Deck).

Inductive Exn :=
  | DeckCheatingError (message : string)
  | IndexError
  | StopIteration
  | AttributeError.

(** ** A state-and-exception monad over the object store

    An exception leaves the store as it was when the exception was raised:
    nothing is rolled back. *)

Inductive Outcome (A : Type) :=
  | Ok (a : A)
  | Raise (e : Exn).
Arguments Ok {A} a.
Arguments Raise {A} e.

Definition M (A : Type) : Type := gmap loc Obj -> Outcome A * gmap loc Obj.

Definition ret {A} (a : A) : M A := fun σ => (Ok a, σ).

Definition raise {A} (e : Exn) : M A := fun σ => (Raise e, σ).

Definition bind {A B} (m : M A) (k : A -> M B) : M B :=
  fun σ =>
    match m σ with
    | (Ok a, σ') => k a σ'
    | (Raise e, σ') => (Raise e, σ')
    end.

Declare Scope py_scope.
Delimit Scope py_scope with py.
Notation "x <- m ;; k" := (bind m (fun x => k))
  (at level 100, m at next level, right associativity) : py_scope.
Notation "m ;;; k" := (bind m (fun _ => k))
  (at level 100, right associativity) : py_scope.
Local Open Scope py_scope.

(** Object creation: the new object gets a reference not in use. *)
Definition alloc (o : Obj) : M loc :=
  fun σ => let l := fresh (dom σ) in (Ok l, <[l := o]> σ).

Definition get_list (l : loc) : M (list Card) :=
  fun σ =>
    match σ !! l with
    | Some (OList xs) => (Ok xs, σ)
    | _ => (Raise AttributeError, σ)
    end.

Definition set_list (l : loc) (xs : list Card) : M unit :=
  fun σ => (Ok tt, <[l := OList xs]> σ).

Definition get_deck (self : loc) : M Deck :=
  fun σ =>
    match σ !! self with
    | Some (ODeck d) => (Ok d, σ)
    | _ => (Raise AttributeError, σ)
    end.

Definition set_deck (self : loc) (d : Deck) : M unit :=
  fun σ => (Ok tt, <[self := ODeck d]> σ).

(** ** Built-in string and tuple operations used by [Card] *)

Definition is_upper (c : ascii) : bool :=
  let n := nat_of_ascii c in (65 <=? n)%nat && (n <=? 90)%nat.

Definition is_lower (c : ascii) : bool :=
  let n := nat_of_ascii c in (97 <=? n)%nat && (n <=? 122)%nat.

Definition to_upper (c : ascii) : ascii :=
  if is_lower c then ascii_of_nat (nat_of_ascii c - 32) else c.

Definition to_lower (c : ascii) : ascii :=
  if is_upper c then ascii_of_nat (nat_of_ascii c + 32) else c.

(** [str.title()]: a cased character that follows a cased character is
    lowercased, any other cased character is uppercased. *)
Fixpoint title_from (previous_is_cased : bool) (s : string) : string :=
  match s with
  | EmptyString => EmptyString
  | String c rest =>
      let c' := if previous_is_cased then to_lower c else to_upper c in
      String c' (title_from (is_upper c || is_lower c) rest)
  end.

Definition str_title (s : string) : string := title_from false s.

(** Comparison of two-element tuples of integers: the first position where
    the tuples differ decides; tuples that agree everywhere are neither
    smaller nor greater. *)
Definition tuple_lt (a b : Z * Z) : bool :=
  if negb (a.1 =? b.1) then a.1 <? b.1
  else if negb (a.2 =? b.2) then a.2 <? b.2
  else false.

Definition tuple_gt (a b : Z * Z) : bool :=
  if negb (a.1 =? b.1) then a.1 >? b.1
  else if negb (a.2 =? b.2) then a.2 >? b.2
  else false.

(** [list] indexing: a negative index counts from the back. *)
Definition norm_index (len : nat) (i : Z) : option nat :=
  let j := if i <? 0 then i + Z.of_nat len else i in
  if (0 <=? j) && (j <? Z.of_nat len) then Some (Z.to_nat j) else None.

Definition list_getitem (l : loc) (index : Z) : M Card :=
  xs <- get_list l ;;
  match norm_index (length xs) index with
  | Some n =>
      match xs !! n with
      | Some c => ret c
      | None => raise IndexError
      end
  | None => raise IndexError
  end.

Definition list_len (l : loc) : M Z :=
  xs <- get_list l ;; ret (Z.of_nat (length xs)).

Definition list_copy (l : loc) : M loc :=
  xs <- get_list l ;; alloc (OList xs).

Definition list_append (l : loc) (x : Card) : M unit :=
  xs <- get_list l ;; set_list l (xs ++ [x]).

Definition list_pop (l : loc) (index : Z) : M Card :=
  xs <- get_list l ;;
  match norm_index (length xs) index with
  | Some n =>
      match xs !! n with
      | Some c => set_list l (delete n xs) ;;; ret c
      | None => raise IndexError
      end
  | None => raise IndexError
  end.

Definition list_setitem (l : loc) (index : Z) (x : Card) : M unit :=
  xs <- get_list l ;;
  match norm_index (length xs) index with
  | Some n => set_list l (<[n := x]> xs)
  | None => raise IndexError
  end.

(** [random.shuffle]: for [i] from [len - 1] down to [1], swap positions
    [i] and [j] with [j] drawn below [i + 1].  The draws are read from
    [rnd], the sequence of raw numbers the generator produces. *)
Definition swap (i j : nat) (xs : list Card) : list Card :=
  match xs !! i, xs !! j with
  | Some a, Some b => <[i := b]> (<[j := a]> xs)
  | _, _ => xs
  end.

Fixpoint fisher_yates (i : nat) (rnd : list nat) (xs : list Card) : list Card :=
  match i with
  | O => xs
  | S i' =>
      let j := (hd 0%nat rnd mod S i)%nat in
      fisher_yates i' (tl rnd) (swap i j xs)
  end.

Definition random_shuffle (l : loc) (rnd : list nat) : M unit :=
  xs <- get_list l ;; set_list l (fisher_yates (length xs - 1) rnd xs).

(** ** Card *)

Definition Card_get_display_name (self : Card) : string :=
  (str_title (Rank.name (_rank self)) +:+ " of " +:+ str_title (Suit.name (_suit self)))%string.

Definition Card_eq (self : Card) (other : Value) : bool :=
  match other with
  | VCard o =>
      bool_decide (_rank self = _rank o) && bool_decide (_suit self = _suit o)
  | _ => false
  end.

Definition Card_lt (self : Card) (other : Value) : Value :=
  match other with
  | VCard o =>
      VBool (tuple_lt (Rank.value (_rank self), Suit.value (_suit self))
                      (Rank.value (_rank o), Suit.value (_suit o)))
  | _ => VNotImplemented
  end.

Definition Card_gt (self : Card) (other : Value) : Value :=
  match other with
  | VCard o =>
      VBool (tuple_gt (Rank.value (_rank self), Suit.value (_suit self))
                      (Rank.value (_rank o), Suit.value (_suit o)))
  | _ => VNotImplemented
  end.

Definition Card_str (self : Card) : string := Card_get_display_name self.

Section Runtime.

(** The interpreter's hash of a string (keyed per process) and its
    combination of the hashes of a tuple's elements. *)
Variable hash_str : string -> Z.
Variable hash_tuple : list Z -> Z.

(** [Enum.__hash__] hashes the member's name. *)
Definition CardRank_hash (r : CardRank) : Z := hash_str (Rank.name r).
Definition CardSuit_hash (s : CardSuit) : Z := hash_str (Suit.name s).

Definition Card_hash (self : Card) : Z :=
  hash_tuple [CardRank_hash (_rank self); CardSuit_hash (_suit self)].

(** [set(xs)]: elements are inserted one by one; an element is already
    present when a stored element has the same hash and compares equal.
    The set is represented by its elements in insertion order. *)
Definition set_contains (s : list Card) (x : Card) : bool :=
  existsb (fun y => (Card_hash y =? Card_hash x) && Card_eq y (VCard x)) s.

Definition set_add (s : list Card) (x : Card) : list Card :=
  if set_contains s x then s else s ++ [x].

Definition py_set (xs : list Card) : list Card := fold_left set_add xs [].

(** ** The decorator [fair_deck] *)

Definition fair_deck {Args : Type} (func : Args -> M Value) : Args -> M Value :=
  fun args =>
    result <- func args ;;
    fun σ =>
      match result with
      | VRef r =>
          match σ !! r with
          | Some (OList xs) =>
              if negb (length xs =? length (py_set xs))%nat
              then (Raise (DeckCheatingError "Duplicate cards detected!"), σ)
              else (Ok result, σ)
          | _ => (Ok result, σ)
          end
      | _ => (Ok result, σ)
      end.

(** ** Deck *)

(** [Deck(shuffle)]: the list comprehension runs over the suits and, for
    each suit, over the ranks.  The instance is entered in the store once
    both attributes are set; the result is the reference to it. *)
Definition standard_cards : list Card :=
  s ← Suit.members; r ← Rank.members; [mkCard s r].

Definition Deck_init (shuffle : bool) (rnd : list nat) : M loc :=
  cards <- alloc (OList standard_cards) ;;
  (if shuffle then random_shuffle cards rnd else ret tt) ;;;
  alloc (ODeck {| _cards := cards; _index := 0 |}).

Definition Deck_cards : loc -> M Value :=
  fair_deck (fun self =>
    d <- get_deck self ;;
    r <- list_copy (_cards d) ;;
    ret (VRef r)).

Definition Deck_shuffle (self : loc) (rnd : list nat) : M Value :=
  d <- get_deck self ;;
  random_shuffle (_cards d) rnd ;;;
  ret VNone.

Definition Deck_draw (self : loc) : M Value :=
  d <- get_deck self ;;
  xs <- get_list (_cards d) ;;
  if negb (length xs =? 0)%nat then
    c <- list_pop (_cards d) 0 ;; ret (VCard c)
  else ret VNone.

Definition Deck_add_card : loc * Card -> M Value :=
  fair_deck (fun '(self, card) =>
    d <- get_deck self ;;
    list_append (_cards d) card ;;;
    ret VNone).

Definition Deck_len (self : loc) : M Z :=
  d <- get_deck self ;; list_len (_cards d).

Definition Deck_getitem (self : loc) (index : Z) : M Card :=
  d <- get_deck self ;; list_getitem (_cards d) index.

Definition Deck_iter (self : loc) : M loc :=
  d <- get_deck self ;;
  set_deck self {| _cards := _cards d; _index := 0 |} ;;;
  ret self.

Definition Deck_next (self : loc) : M Card :=
  d <- get_deck self ;;
  n <- list_len (_cards d) ;;
  if _index d >=? n then raise StopIteration
  else
    result <- list_getitem (_cards d) (_index d) ;;
    set_deck self {| _cards := _cards d; _index := _index d + 1 |} ;;;
    ret result.

(** A [for] loop over an iterator: [next] is called until it raises
    [StopIteration]; the elements produced are collected in order.
    [fuel] bounds the number of calls; [None] reports that it ran out. *)
Fixpoint for_each (fuel : nat) (it : loc) (seen : list Card) : M (option (list Card)) :=
  match fuel with
  | O => ret None
  | S fuel' =>
      fun σ =>
        match Deck_next it σ with
        | (Ok c, σ') => for_each fuel' it (seen ++ [c]) σ'
        | (Raise StopIteration, σ') => (Ok (Some seen), σ')
        | (Raise e, σ') => (Raise e, σ')
        end
  end.

Definition iterate (fuel : nat) (self : loc) : M (option (list Card)) :=
  it <- Deck_iter self ;; for_each fuel it [].

End Runtime.

(** ** Specification-side notions *)

(** The spec's title-casing of a name: first letter capitalized, the rest
    lowercase. *)
Definition spec_title_case (s : string) : string :=
  match s with
  | EmptyString => EmptyString
  | String c rest =>
      String (to_upper c) (string_of_list_ascii (map to_lower (list_ascii_of_string rest)))
  end.

(** The spec's order on cards: rank ordinal first, suit ordinal second. *)
Definition spec_card_lt (a b : Card) : Prop :=
  Rank.value (_rank a) < Rank.value (_rank b)
  ∨ (Rank.value (_rank a) = Rank.value (_rank b)
     ∧ Suit.value (_suit a) < Suit.value (_suit b)).

(** A deck object whose attributes are [d] and whose list holds [xs]. *)
Definition deck_at (σ : gmap loc Obj) (self : loc) (d : Deck) (xs : list Card) : Prop :=
  σ !! self = Some (ODeck d) ∧ σ !! _cards d = Some (OList xs).

(** The spec's "two equal cards": two different positions hold cards that
    compare equal. *)
Definition has_duplicate (xs : list Card) : Prop :=
  ∃ (i j : nat) (a b : Card),
    i ≠ j ∧ xs !! i = Some a ∧ xs !! j = Some b ∧ Card_eq a (VCard b) = true.

(** A small store for running the methods: the deck at reference 2 holds the
    list at reference 1, and the deck at reference 4 the list at reference 3,
    which repeats a card. *)
Definition sample_cards : list Card :=
  [mkCard HEARTS TWO; mkCard CLUBS THREE; mkCard SPADES ACE].

Definition cheating_cards : list Card :=
  [mkCard HEARTS TWO; mkCard CLUBS THREE; mkCard HEARTS TWO].

Definition sample_store : gmap loc Obj :=
  <[4%positive := ODeck (mkDeck 3%positive 0)]>
    (<[3%positive := OList cheating_cards]>
       (<[2%positive := ODeck (mkDeck 1%positive 0)]>
          (<[1%positive := OList sample_cards]> ∅))).

(** Stand-ins for the interpreter's hash functions. *)
Definition sample_hash_str (s : string) : Z := Z.of_nat (String.length s).
Definition sample_hash_tuple (hs : list Z) : Z := fold_right (fun h acc => h + 31 * acc) 7 hs.

(** [n] successive calls of [draw], results in call order. *)
Fixpoint draws (n : nat) (self : loc) : M (list Value) :=
  match n with
  | O => ret []
  | S n' => v <- Deck_draw self ;; vs <- draws n' self ;; ret (v :: vs)
  end.

(** ** Further parts of the module *)

(** [Card.__repr__]: inside an f-string an enum member reads as its class
    name, a dot and its name; the rank comes first. *)
Definition CardRank_str (r : CardRank) : string := ("CardRank." +:+ Rank.name r)%string.
Definition CardSuit_str (s : CardSuit) : string := ("CardSuit." +:+ Suit.name s)%string.

Definition Card_repr (self : Card) : string :=
  ("Card(" +:+ CardRank_str (_rank self) +:+ ", " +:+ CardSuit_str (_suit self) +:+ ")")%string.

(** [n] successive calls of [next] on an iterator, results in call order. *)
Fixpoint nexts (n : nat) (it : loc) : M (list Card) :=
  match n with
  | O => ret []
  | S n' => c <- Deck_next it ;; cs <- nexts n' it ;; ret (c :: cs)
  end.

(** A [for] loop with a body: [next] is called until it raises
    [StopIteration]; the body runs on each element, and an exception of the
    body (also a [StopIteration]) ends the loop and propagates.  The elements
    the body has completed on are collected; [fuel] bounds the rounds. *)
Fixpoint for_loop (fuel : nat) (it : loc) (body : Card -> M unit) (seen : list Card)
    : M (option (list Card)) :=
  match fuel with
  | O => ret None
  | S fuel' =>
      fun σ =>
        match Deck_next it σ with
        | (Ok c, σ') =>
            match body c σ' with
            | (Ok _, σ'') => for_loop fuel' it body (seen ++ [c]) σ''
            | (Raise e, σ'') => (Raise e, σ'')
            end
        | (Raise StopIteration, σ') => (Ok (Some seen), σ')
        | (Raise e, σ') => (Raise e, σ')
        end
  end.

(** [for c in deck: deck.draw()]. *)
Definition iterate_drawing (fuel : nat) (self : loc) : M (option (list Card)) :=
  it <- Deck_iter self ;;
  for_loop fuel it (fun _ => Deck_draw self ;;; ret tt) [].

(** [c = deck.draw()] followed by [deck.add_card(c)] when a card was drawn,
    and [n] such rounds in a row. *)
Definition recycle (hash_str : string -> Z) (hash_tuple : list Z -> Z) (self : loc) : M Value :=
  v <- Deck_draw self ;;
  match v with
  | VCard c => Deck_add_card hash_str hash_tuple (self, c)
  | _ => ret VNone
  end.

Fixpoint recycles (hash_str : string -> Z) (hash_tuple : list Z -> Z) (n : nat) (self : loc)
    : M unit :=
  match n with
  | O => ret tt
  | S n' => recycle hash_str hash_tuple self ;;; recycles hash_str hash_tuple n' self
  end.

(** Every other element of a list, the first one included. *)
Fixpoint alternate (xs : list Card) : list Card :=
  match xs with
  | [] => []
  | x :: rest =>
      x :: match rest with
           | [] => []
           | _ :: rest' => alternate rest'
           end
  end.

(** ** The demonstration program

    Standard output joins the store: it is the list of the strings given to
    [print], one string per call. *)

Definition IO (A : Type) : Type :=
  list string * gmap loc Obj -> Outcome A * (list string * gmap loc Obj).

Definition io_ret {A} (a : A) : IO A := fun w => (Ok a, w).

Definition io_bind {A B} (m : IO A) (k : A -> IO B) : IO B :=
  fun w =>
    match m w with
    | (Ok a, w') => k a w'
    | (Raise e, w') => (Raise e, w')
    end.

Definition lift {A} (m : M A) : IO A :=
  fun w => match m w.2 with (o, σ') => (o, (w.1, σ')) end.

Definition print (s : string) : IO unit :=
  fun w => (Ok tt, (w.1 ++ [s], w.2)).

Declare Scope io_scope.
Delimit Scope io_scope with io.
Notation "x <- m ;; k" := (io_bind m (fun x => k))
  (at level 100, m at next level, right associativity) : io_scope.
Notation "m ;;; k" := (io_bind m (fun _ => k))
  (at level 100, right associativity) : io_scope.

Definition nl : string := String (ascii_of_nat 10) EmptyString.

(** [xs[:stop]] for a list object and a non-negative [stop]: a new list. *)
Definition list_slice_to (v : Value) (stop : nat) : M loc :=
  match v with
  | VRef l => xs <- get_list l ;; alloc (OList (take stop xs))
  | _ => raise AttributeError
  end.

(** [str] of a list of cards: the [repr] of each card, joined. *)
Definition list_str (l : loc) : M string :=
  xs <- get_list l ;;
  ret ("[" +:+ String.concat ", " (Card_repr <$> xs) +:+ "]")%string.

(** How the result of [draw], a card or [None], reads inside an f-string. *)
Definition drawn_str (v : Value) : string :=
  match v with
  | VCard c => Card_str c
  | _ => "None"
  end.

(** [for i in range(...)] over the integers given. *)
Fixpoint io_for_range (range : list Z) (body : Z -> IO unit) : IO unit :=
  match range with
  | [] => io_ret tt
  | i :: rest => (body i ;;; io_for_range rest body)%io
  end.

(** [for c in it] with a printing body; [None] reports that [fuel] ran out. *)
Fixpoint io_for_each (fuel : nat) (it : loc) (body : Card -> IO unit) : IO (option unit) :=
  match fuel with
  | O => io_ret None
  | S fuel' =>
      fun w =>
        match lift (Deck_next it) w with
        | (Ok c, w') =>
            match body c w' with
            | (Ok _, w'') => io_for_each fuel' it body w''
            | (Raise e, w'') => (Raise e, w'')
            end
        | (Raise StopIteration, w') => (Ok (Some tt), w')
        | (Raise e, w') => (Raise e, w')
        end
  end.

Definition main (hash_str : string -> Z) (hash_tuple : list Z -> Z)
    (rnd : list nat) (fuel : nat) : IO (option unit) :=
  (print "Creating a shuffled deck:" ;;;
   deck <- lift (Deck_init true rnd) ;;
   cards <- lift (Deck_cards hash_str hash_tuple deck) ;;
   first <- lift (list_slice_to cards 5) ;;
   text <- lift (list_str first) ;;
   print text ;;;
   print (nl +:+ "Drawing a card:") ;;;
   card <- lift (Deck_draw deck) ;;
   print ("Drawn card: " +:+ drawn_str card) ;;;
   print (nl +:+ "Adding a new card:") ;;;
   lift (Deck_add_card hash_str hash_tuple (deck, mkCard HEARTS ACE)) ;;;
   print ("Added: " +:+ Card_str (mkCard HEARTS ACE)) ;;;
   print (nl +:+ "Accessing cards directly by index:") ;;;
   io_for_range (seqZ 0 5) (fun i =>
     c <- lift (Deck_getitem deck i) ;;
     print ("Card at index " +:+ pretty i +:+ ": " +:+ Card_str c)) ;;;
   print (nl +:+ "Iterating through remaining cards:") ;;;
   it <- lift (Deck_iter deck) ;;
   io_for_each fuel it (fun c => print (Card_str c)))%io.

(** * Properties of [Card] *)

Lemma Rank_value_inj r1 r2 : Rank.value r1 = Rank.value r2 -> r1 = r2.
Proof. destruct r1, r2; simpl; intros H; first [reflexivity | discriminate H]. Qed.

Lemma Suit_value_inj s1 s2 : Suit.value s1 = Suit.value s2 -> s1 = s2.
Proof. destruct s1, s2; simpl; intros H; first [reflexivity | discriminate H]. Qed.

Lemma Card_eq_true_iff a b : Card_eq a (VCard b) = true <-> a = b.
Proof.
  unfold Card_eq. rewrite andb_true_iff, !bool_decide_eq_true.
  destruct a as [sa ra], b as [sb rb]; simpl. split.
  - intros [-> ->]. reflexivity.
  - intros [= -> ->]. split; reflexivity.
Qed.

Lemma tuple_lt_spec a1 a2 b1 b2 :
  tuple_lt (a1, a2) (b1, b2) = true <-> a1 < b1 ∨ (a1 = b1 ∧ a2 < b2).
Proof.
  unfold tuple_lt; simpl.
  destruct (Z.eqb_spec a1 b1) as [E1 | N1]; simpl.
  - destruct (Z.eqb_spec a2 b2) as [E2 | N2]; simpl.
    + split; [discriminate | lia].
    + rewrite Z.ltb_lt. lia.
  - rewrite Z.ltb_lt. lia.
Qed.

Lemma tuple_gt_lt a b : tuple_gt a b = tuple_lt b a.
Proof.
  destruct a as [a1 a2], b as [b1 b2]. unfold tuple_gt, tuple_lt; simpl.
  rewrite (Z.eqb_sym b1 a1), (Z.eqb_sym b2 a2), !Z.gtb_ltb. reflexivity.
Qed.

Lemma Card_lt_spec a b : Card_lt a (VCard b) = VBool true <-> spec_card_lt a b.
Proof.
  unfold Card_lt, spec_card_lt. rewrite <- tuple_lt_spec.
  split; [intros [= H]; exact H | intros ->; reflexivity].
Qed.

(** C5. The order on cards is a strict total order: [a < b] holds exactly when
    (rank value, suit value) of [a] is lexicographically below that of [b]; it
    is irreflexive, transitive and any two cards are either equal or ordered
    one way; [>] is the converse of [<]; the rank dominates the suit, as in
    Card(Hearts, Two) < Card(Clubs, Three). *)
Theorem Card_lt_strict_total_order :
  (forall a b : Card, Card_lt a (VCard b) = VBool true <-> spec_card_lt a b)
  ∧ (forall a b : Card, Card_lt a (VCard b) = VBool false <-> ¬ spec_card_lt a b)
  ∧ (forall a : Card, Card_lt a (VCard a) = VBool false)
  ∧ (forall a b c : Card,
        Card_lt a (VCard b) = VBool true -> Card_lt b (VCard c) = VBool true ->
        Card_lt a (VCard c) = VBool true)
  ∧ (forall a b : Card,
        Card_lt a (VCard b) = VBool true ∨ Card_eq a (VCard b) = true
        ∨ Card_lt b (VCard a) = VBool true)
  ∧ (forall a b : Card, Card_gt a (VCard b) = Card_lt b (VCard a))
  ∧ Card_lt (mkCard HEARTS TWO) (VCard (mkCard CLUBS THREE)) = VBool true.
Proof.
  repeat split.
  - apply Card_lt_spec.
  - apply Card_lt_spec.
  - intros H Hs. apply Card_lt_spec in Hs. rewrite Hs in H. discriminate H.
  - intros Hn. unfold Card_lt.
    destruct (tuple_lt _ _) eqn:E; [| reflexivity].
    exfalso. apply Hn, Card_lt_spec. unfold Card_lt. rewrite E. reflexivity.
  - intros a. unfold Card_lt, tuple_lt; simpl. rewrite !Z.eqb_refl. reflexivity.
  - intros a b c. rewrite !Card_lt_spec. unfold spec_card_lt. lia.
  - intros a b. rewrite !Card_lt_spec, Card_eq_true_iff. unfold spec_card_lt.
    destruct (Z.lt_trichotomy (Rank.value (_rank a)) (Rank.value (_rank b)))
      as [Hr | [Hr | Hr]]; [lia | | lia].
    destruct (Z.lt_trichotomy (Suit.value (_suit a)) (Suit.value (_suit b)))
      as [Hs | [Hs | Hs]]; [lia | | lia].
    right; left. apply Rank_value_inj in Hr. apply Suit_value_inj in Hs.
    destruct a, b; simpl in *; congruence.
  - intros a b. unfold Card_gt, Card_lt. rewrite tuple_gt_lt. reflexivity.
Qed.

(** C6. Card equality is reflexive, symmetric and transitive, holds exactly
    when suit and rank both match, and equal cards have equal hashes. *)
Theorem Card_eq_equivalence_hash (hash_str : string -> Z) (hash_tuple : list Z -> Z) :
  (forall a : Card, Card_eq a (VCard a) = true)
  ∧ (forall a b : Card, Card_eq a (VCard b) = Card_eq b (VCard a))
  ∧ (forall a b c : Card,
        Card_eq a (VCard b) = true -> Card_eq b (VCard c) = true ->
        Card_eq a (VCard c) = true)
  ∧ (forall a b : Card,
        Card_eq a (VCard b) = true <-> _suit a = _suit b ∧ _rank a = _rank b)
  ∧ (forall a b : Card,
        Card_eq a (VCard b) = true ->
        Card_hash hash_str hash_tuple a = Card_hash hash_str hash_tuple b).
Proof.
  split; [| split; [| split; [| split]]].
  - intros a. apply Card_eq_true_iff. reflexivity.
  - intros a b. apply eq_true_iff_eq. rewrite !Card_eq_true_iff. split; congruence.
  - intros a b c. rewrite !Card_eq_true_iff. congruence.
  - intros a b. rewrite Card_eq_true_iff. split.
    + intros ->. split; reflexivity.
    + intros [Hs Hr]. destruct a, b; simpl in *; congruence.
  - intros a b H. apply Card_eq_true_iff in H. rewrite H. reflexivity.
Qed.

(** C9. The display name of a card is the rank's name, " of ", and the suit's
    name, each with its first letter capitalized and the rest lowercase; the
    ace of spades reads "Ace of Spades". *)
Theorem Card_get_display_name_title_case :
  (forall (s : CardSuit) (r : CardRank),
      Card_get_display_name (mkCard s r)
      = (spec_title_case (Rank.name r) +:+ " of " +:+ spec_title_case (Suit.name s))%string)
  ∧ Card_get_display_name (mkCard SPADES ACE) = "Ace of Spades"%string.
Proof.
  split; [intros s r; destruct s, r |]; vm_compute; reflexivity.
Qed.

(** * The object store *)

Lemma alloc_fresh (o : Obj) (σ : gmap loc Obj) :
  ∃ l, alloc o σ = (Ok l, <[l := o]> σ) ∧ σ !! l = None.
Proof.
  exists (fresh (dom σ)). split; [reflexivity |].
  apply not_elem_of_dom, is_fresh.
Qed.

Lemma deck_at_ne σ self d xs : deck_at σ self d xs -> self ≠ _cards d.
Proof. intros [Hd Hl] E. rewrite <- E, Hd in Hl. discriminate Hl. Qed.

Lemma deck_at_set_list σ self d xs ys :
  deck_at σ self d xs -> deck_at (<[_cards d := OList ys]> σ) self d ys.
Proof.
  intros H. pose proof (deck_at_ne _ _ _ _ H) as Hne. destruct H as [Hd Hl].
  split; [rewrite lookup_insert_ne by congruence; exact Hd | apply lookup_insert_eq].
Qed.

Lemma deck_at_set_deck σ self d d' xs :
  deck_at σ self d xs -> _cards d' = _cards d ->
  deck_at (<[self := ODeck d']> σ) self d' xs.
Proof.
  intros H E. pose proof (deck_at_ne _ _ _ _ H) as Hne. destruct H as [Hd Hl].
  split; [apply lookup_insert_eq |].
  rewrite E, lookup_insert_ne by congruence. exact Hl.
Qed.

Lemma deck_at_alloc σ self d xs l o :
  deck_at σ self d xs -> σ !! l = None -> deck_at (<[l := o]> σ) self d xs.
Proof.
  intros [Hd Hl] Hf. split; (rewrite lookup_insert_ne; [assumption | congruence]).
Qed.

Lemma deck_at_inj σ self d xs d' ys :
  deck_at σ self d xs -> deck_at σ self d' ys -> d = d' ∧ xs = ys.
Proof.
  intros [Hd Hl] [Hd' Hl']. rewrite Hd in Hd'. injection Hd' as <-.
  rewrite Hl in Hl'. injection Hl' as <-. split; reflexivity.
Qed.

(** Stepping through the store-reading primitives of a method body. *)
Ltac step_deck H :=
  unfold list_len, list_getitem, list_pop, list_append, list_copy;
  unfold bind, get_deck, get_list, set_list, set_deck, ret, raise;
  repeat progress (rewrite ?(proj1 H), ?(proj2 H); simpl).

Lemma norm_index_nat (len n : nat) :
  (n < len)%nat -> norm_index len (Z.of_nat n) = Some n.
Proof.
  intros Hn. unfold norm_index.
  destruct (Z.ltb_spec (Z.of_nat n) 0) as [Hneg | _]; [lia |].
  destruct (Z.leb_spec 0 (Z.of_nat n)) as [_ | Hneg]; [| lia].
  destruct (Z.ltb_spec (Z.of_nat n) (Z.of_nat len)) as [_ | Hge]; [| lia].
  simpl. rewrite Nat2Z.id. reflexivity.
Qed.

Lemma norm_index_len (len : nat) : norm_index len (Z.of_nat len) = None.
Proof.
  unfold norm_index.
  destruct (Z.ltb_spec (Z.of_nat len) 0) as [Hneg | _]; [lia |].
  destruct (Z.ltb_spec (Z.of_nat len) (Z.of_nat len)) as [Hlt | _]; [lia |].
  rewrite andb_false_r. reflexivity.
Qed.

Lemma norm_index_back (len k : nat) :
  (1 <= k <= len)%nat -> norm_index len (- Z.of_nat k) = Some (len - k)%nat.
Proof.
  intros Hk. unfold norm_index.
  destruct (Z.ltb_spec (- Z.of_nat k) 0) as [_ | Hpos]; [| lia].
  destruct (Z.leb_spec 0 (- Z.of_nat k + Z.of_nat len)) as [_ | Hneg]; [| lia].
  destruct (Z.ltb_spec (- Z.of_nat k + Z.of_nat len) (Z.of_nat len)) as [_ | Hge]; [| lia].
  simpl. f_equal. lia.
Qed.

(** * Properties of [Deck] *)

Lemma Deck_len_ok σ self d xs :
  deck_at σ self d xs -> Deck_len self σ = (Ok (Z.of_nat (length xs)), σ).
Proof. intros H. unfold Deck_len. step_deck H. reflexivity. Qed.

Lemma Deck_getitem_nat σ self d xs (n : nat) c :
  deck_at σ self d xs -> xs !! n = Some c ->
  Deck_getitem self (Z.of_nat n) σ = (Ok c, σ).
Proof.
  intros H Hn. unfold Deck_getitem. step_deck H.
  rewrite norm_index_nat by (eapply lookup_lt_Some; exact Hn).
  rewrite Hn. reflexivity.
Qed.

Lemma Deck_getitem_out σ self d xs (i : Z) :
  deck_at σ self d xs -> norm_index (length xs) i = None ->
  Deck_getitem self i σ = (Raise IndexError, σ).
Proof. intros H Hi. unfold Deck_getitem. step_deck H. rewrite Hi. reflexivity. Qed.

Lemma Deck_draw_cons σ self d x xs :
  deck_at σ self d (x :: xs) ->
  Deck_draw self σ = (Ok (VCard x), <[_cards d := OList xs]> σ).
Proof. intros H. unfold Deck_draw. step_deck H. reflexivity. Qed.

Lemma Deck_draw_empty σ self d :
  deck_at σ self d [] -> Deck_draw self σ = (Ok VNone, σ).
Proof. intros H. unfold Deck_draw. step_deck H. reflexivity. Qed.

Lemma draws_all σ self d xs :
  deck_at σ self d xs ->
  ∃ σ', draws (length xs) self σ = (Ok (VCard <$> xs), σ') ∧ deck_at σ' self d [].
Proof.
  revert σ. induction xs as [| x xs IH]; intros σ H.
  - exists σ. split; [reflexivity | exact H].
  - destruct (IH (<[_cards d := OList xs]> σ)) as (σ' & Hrun & Hend).
    { eapply deck_at_set_list, H. }
    exists σ'. split; [| exact Hend].
    simpl. unfold bind at 1. rewrite (Deck_draw_cons _ _ _ _ _ H).
    unfold bind at 1. rewrite Hrun. reflexivity.
Qed.

Lemma standard_cards_lookup (s : CardSuit) (r : CardRank) :
  standard_cards !! (13 * Suit.ordinal s + Rank.ordinal r)%nat = Some (mkCard s r).
Proof. destruct s, r; reflexivity. Qed.

Lemma standard_cards_NoDup : NoDup standard_cards.
Proof. apply (bool_decide_unpack _). vm_compute. exact I. Qed.

Lemma Deck_init_unshuffled (rnd : list nat) (σ : gmap loc Obj) :
  ∃ self cards,
    Deck_init false rnd σ
    = (Ok self, <[self := ODeck (mkDeck cards 0)]> (<[cards := OList standard_cards]> σ))
    ∧ σ !! cards = None
    ∧ (<[cards := OList standard_cards]> σ) !! self = None.
Proof.
  destruct (alloc_fresh (OList standard_cards) σ) as (cards & Hc & Hfc).
  destruct (alloc_fresh (ODeck (mkDeck cards 0)) (<[cards := OList standard_cards]> σ))
    as (self & Hs & Hfs).
  exists self, cards. split; [| split; assumption].
  unfold Deck_init, bind. rewrite Hc. unfold ret. exact Hs.
Qed.

Lemma Deck_init_unshuffled_deck_at (rnd : list nat) (σ : gmap loc Obj) :
  ∃ self σ' d,
    Deck_init false rnd σ = (Ok self, σ') ∧ deck_at σ' self d standard_cards
    ∧ _index d = 0.
Proof.
  destruct (Deck_init_unshuffled rnd σ) as (self & cards & Hrun & Hfc & Hfs).
  eexists self, _, (mkDeck cards 0). split; [exact Hrun |]. split; [| reflexivity].
  split; [apply lookup_insert_eq |]. simpl.
  rewrite lookup_insert_ne; [apply lookup_insert_eq |].
  intros ->. rewrite lookup_insert_eq in Hfs. discriminate Hfs.
Qed.

Lemma Deck_init_total (shuffle : bool) (rnd : list nat) (σ : gmap loc Obj) :
  ∃ self σ', Deck_init shuffle rnd σ = (Ok self, σ').
Proof.
  destruct shuffle.
  - unfold Deck_init, bind at 1 2.
    destruct (alloc_fresh (OList standard_cards) σ) as (cards & -> & _).
    unfold random_shuffle, bind, get_list, set_list.
    rewrite lookup_insert_eq.
    match goal with
    | |- context [alloc ?o ?τ] => destruct (alloc_fresh o τ) as (self & -> & _)
    end.
    eauto.
  - destruct (Deck_init_unshuffled rnd σ) as (self & cards & -> & _). eauto.
Qed.

(** C4. Building a deck without shuffling succeeds in every store and yields
    52 cards without repetition, the card of suit [s] and rank [r] standing at
    position 13 * (position of [s] among the suits) + (position of [r] among
    the ranks): suits in the order Clubs, Diamonds, Hearts, Spades, and within
    a suit the ranks from Two to Ace.  Building a deck never raises, shuffled
    or not. *)
Theorem Deck_init_unshuffled_canonical (rnd : list nat) (σ : gmap loc Obj) :
  (∃ self σ' d,
      Deck_init false rnd σ = (Ok self, σ')
      ∧ deck_at σ' self d standard_cards)
  ∧ length standard_cards = 52%nat
  ∧ NoDup standard_cards
  ∧ (forall (s : CardSuit) (r : CardRank),
        standard_cards !! (13 * Suit.ordinal s + Rank.ordinal r)%nat = Some (mkCard s r))
  ∧ Suit.members = [CLUBS; DIAMONDS; HEARTS; SPADES]
  ∧ (forall s : CardSuit, Suit.members !! Suit.ordinal s = Some s)
  ∧ (forall r : CardRank, Rank.members !! Rank.ordinal r = Some r)
  ∧ Rank.members !! 0%nat = Some TWO ∧ Rank.members !! 12%nat = Some ACE
  ∧ (forall shuffle : bool, ∃ self σ', Deck_init shuffle rnd σ = (Ok self, σ')).
Proof.
  split.
  { destruct (Deck_init_unshuffled_deck_at rnd σ) as (self & σ' & d & Hrun & Hat & _).
    exists self, σ', d. split; assumption. }
  split; [reflexivity |].
  split; [exact standard_cards_NoDup |].
  split; [exact standard_cards_lookup |].
  split; [reflexivity |].
  split; [intros s; destruct s; reflexivity |].
  split; [intros r; destruct r; reflexivity |].
  split; [reflexivity |].
  split; [reflexivity |].
  intros shuffle. apply Deck_init_total.
Qed.

(** C3. From a deck built without shuffling, 52 successive draws return the
    52 distinct cards, each once, in the order the deck had when it was built;
    every draw from a non-empty deck removes and returns the front card; the
    53rd draw, like any draw from an empty deck, returns [None] and raises
    nothing. *)
Theorem Deck_draw_all_fifo (rnd : list nat) (σ : gmap loc Obj) :
  (∃ self σ0 d σ1,
      Deck_init false rnd σ = (Ok self, σ0)
      ∧ deck_at σ0 self d standard_cards
      ∧ draws 52 self σ0 = (Ok (VCard <$> standard_cards), σ1)
      ∧ Deck_draw self σ1 = (Ok VNone, σ1))
  ∧ length standard_cards = 52%nat
  ∧ NoDup standard_cards
  ∧ (forall (s : CardSuit) (r : CardRank), mkCard s r ∈ standard_cards)
  ∧ (forall (τ : gmap loc Obj) (t : loc) (d : Deck) (x : Card) (xs : list Card),
        deck_at τ t d (x :: xs) ->
        Deck_draw t τ = (Ok (VCard x), <[_cards d := OList xs]> τ)
        ∧ deck_at (<[_cards d := OList xs]> τ) t d xs)
  ∧ (forall (τ : gmap loc Obj) (t : loc) (d : Deck),
        deck_at τ t d [] -> Deck_draw t τ = (Ok VNone, τ)).
Proof.
  split.
  { destruct (Deck_init_unshuffled_deck_at rnd σ) as (self & σ0 & d & Hrun & Hat & _).
    destruct (draws_all _ _ _ _ Hat) as (σ1 & Hdraws & Hend).
    exists self, σ0, d, σ1.
    repeat (split; [assumption |]).
    eapply Deck_draw_empty, Hend. }
  split; [reflexivity |].
  split; [exact standard_cards_NoDup |].
  split.
  { intros s r. eapply list_elem_of_lookup_2, standard_cards_lookup. }
  split.
  - intros τ t d x xs H. split; [apply Deck_draw_cons, H |].
    eapply deck_at_set_list, H.
  - intros τ t d H. eapply Deck_draw_empty, H.
Qed.

(** C7. In a deck of [n] cards, indexing at [i] with [0 <= i < n] returns the
    card at position [i] and leaves the store as it was; the card at index 0
    is the one the next draw returns; indexing at [n] raises [IndexError]. *)
Theorem Deck_getitem_in_range (σ : gmap loc Obj) (self : loc) (d : Deck) (xs : list Card) :
  deck_at σ self d xs ->
  Deck_len self σ = (Ok (Z.of_nat (length xs)), σ)
  ∧ (forall i : Z, 0 <= i < Z.of_nat (length xs) ->
        ∃ c, xs !! Z.to_nat i = Some c ∧ Deck_getitem self i σ = (Ok c, σ))
  ∧ (forall c : Card, Deck_getitem self 0 σ = (Ok c, σ) ->
        ∃ σ', Deck_draw self σ = (Ok (VCard c), σ'))
  ∧ Deck_getitem self (Z.of_nat (length xs)) σ = (Raise IndexError, σ).
Proof.
  intros H. split; [eapply Deck_len_ok, H |]. split; [| split].
  - intros i Hi.
    destruct (lookup_lt_is_Some_2 xs (Z.to_nat i)) as [c Hc]; [lia |].
    exists c. split; [exact Hc |].
    rewrite <- (Z2Nat.id i) by lia. eapply Deck_getitem_nat; eassumption.
  - intros c Hget. destruct xs as [| x xs].
    + rewrite (Deck_getitem_out _ _ _ _ 0 H eq_refl) in Hget. discriminate Hget.
    + pose proof (Deck_getitem_nat _ _ _ _ 0%nat x H eq_refl) as Hfront.
      change (Z.of_nat 0) with 0 in Hfront. rewrite Hfront in Hget.
      injection Hget as <-. eexists. eapply Deck_draw_cons, H.
  - eapply Deck_getitem_out; [exact H | apply norm_index_len].
Qed.

(** C10. In a deck of [n > 0] cards, indexing at [-k] with [1 <= k <= n]
    raises nothing and returns the card at position [n - k]. *)
Theorem Deck_getitem_negative (σ : gmap loc Obj) (self : loc) (d : Deck) (xs : list Card) (k : Z) :
  deck_at σ self d xs ->
  1 <= k <= Z.of_nat (length xs) ->
  ∃ c, xs !! Z.to_nat (Z.of_nat (length xs) - k) = Some c
       ∧ Deck_getitem self (- k) σ = (Ok c, σ).
Proof.
  intros H Hk.
  destruct (lookup_lt_is_Some_2 xs (Z.to_nat (Z.of_nat (length xs) - k))) as [c Hc]; [lia |].
  exists c. split; [exact Hc |].
  unfold Deck_getitem. step_deck H.
  replace (- k) with (- Z.of_nat (Z.to_nat k)) by lia.
  rewrite norm_index_back by lia.
  replace (length xs - Z.to_nat k)%nat with (Z.to_nat (Z.of_nat (length xs) - k)) by lia.
  rewrite Hc. reflexivity.
Qed.

Lemma Deck_next_step σ self d xs (i : nat) c :
  deck_at σ self d xs -> _index d = Z.of_nat i -> xs !! i = Some c ->
  Deck_next self σ
  = (Ok c, <[self := ODeck (mkDeck (_cards d) (Z.of_nat (S i)))]> σ).
Proof.
  intros H Hi Hc. pose proof (lookup_lt_Some _ _ _ Hc) as Hlt.
  unfold Deck_next. step_deck H.
  destruct (Z.geb_spec (_index d) (Z.of_nat (length xs))) as [Hge | _]; [lia |].
  rewrite (proj2 H), Hi, norm_index_nat, Hc by exact Hlt.
  replace (Z.of_nat i + 1) with (Z.of_nat (S i)) by lia. reflexivity.
Qed.

Lemma Deck_next_stop σ self d xs :
  deck_at σ self d xs -> Z.of_nat (length xs) <= _index d ->
  Deck_next self σ = (Raise StopIteration, σ).
Proof.
  intros H Hi. unfold Deck_next. step_deck H.
  destruct (Z.geb_spec (_index d) (Z.of_nat (length xs))) as [_ | Hlt]; [reflexivity | lia].
Qed.

Lemma for_each_from σ self d xs (i fuel : nat) (seen : list Card) :
  deck_at σ self d xs -> _index d = Z.of_nat i ->
  (i <= length xs)%nat -> (length xs - i < fuel)%nat ->
  for_each fuel self seen σ
  = (Ok (Some (seen ++ drop i xs)),
     <[self := ODeck (mkDeck (_cards d) (Z.of_nat (length xs)))]> σ).
Proof.
  revert σ d i seen. induction fuel as [| fuel IH]; intros σ d i seen H Hi Hle Hfuel; [lia |].
  simpl. destruct (decide (i = length xs)) as [-> | Hne].
  - rewrite (Deck_next_stop _ _ _ _ H) by lia.
    rewrite drop_all, app_nil_r, <- Hi.
    rewrite insert_id; [reflexivity |]. destruct d; exact (proj1 H).
  - destruct (lookup_lt_is_Some_2 xs i) as [c Hc]; [lia |].
    rewrite (Deck_next_step _ _ _ _ _ _ H Hi Hc).
    rewrite (IH _ (mkDeck (_cards d) (Z.of_nat (S i))) (S i) (seen ++ [c])).
    + rewrite insert_insert_eq, <- app_assoc. simpl.
      rewrite (drop_S _ _ _ Hc). reflexivity.
    + eapply deck_at_set_deck; [exact H | reflexivity].
    + reflexivity.
    + lia.
    + lia.
Qed.

Lemma Deck_iter_ok σ self d xs :
  deck_at σ self d xs ->
  Deck_iter self σ = (Ok self, <[self := ODeck (mkDeck (_cards d) 0)]> σ).
Proof. intros H. unfold Deck_iter. step_deck H. reflexivity. Qed.

(** C8. One full iteration over a deck that nothing else touches produces the
    deck's cards, all of them and in front-to-back order, and then stops; the
    list of cards is unchanged (only the deck's cursor has moved, to the end),
    so the deck still has the same length and no other object changed. *)
Theorem Deck_iterate_visits_all (σ : gmap loc Obj) (self : loc) (d : Deck)
    (xs : list Card) (fuel : nat) :
  deck_at σ self d xs ->
  (length xs < fuel)%nat ->
  ∃ σ',
    iterate fuel self σ = (Ok (Some xs), σ')
    ∧ σ' = <[self := ODeck (mkDeck (_cards d) (Z.of_nat (length xs)))]> σ
    ∧ deck_at σ' self (mkDeck (_cards d) (Z.of_nat (length xs))) xs
    ∧ Deck_len self σ' = (Ok (Z.of_nat (length xs)), σ')
    ∧ Deck_len self σ = (Ok (Z.of_nat (length xs)), σ).
Proof.
  intros H Hfuel. eexists. split; [| split; [reflexivity |]].
  - unfold iterate, bind. rewrite (Deck_iter_ok _ _ _ _ H).
    rewrite (for_each_from _ self (mkDeck (_cards d) 0) xs 0%nat fuel []).
    + rewrite insert_insert_eq. reflexivity.
    + eapply deck_at_set_deck; [exact H | reflexivity].
    + reflexivity.
    + lia.
    + lia.
  - assert (deck_at (<[self := ODeck (mkDeck (_cards d) (Z.of_nat (length xs)))]> σ)
              self (mkDeck (_cards d) (Z.of_nat (length xs))) xs) as H'.
    { eapply deck_at_set_deck; [exact H | reflexivity]. }
    split; [exact H' |]. split; eapply Deck_len_ok; eassumption.
Qed.

(** * Duplicate detection *)

Lemma has_duplicate_not_NoDup (xs : list Card) : has_duplicate xs -> ¬ NoDup xs.
Proof.
  intros (i & j & a & b & Hij & Ha & Hb & Heq) Hnd.
  apply Card_eq_true_iff in Heq. subst b.
  apply Hij. eapply NoDup_lookup; eassumption.
Qed.

Lemma NoDup_or_has_duplicate (xs : list Card) : NoDup xs ∨ has_duplicate xs.
Proof.
  induction xs as [| x xs [IH | (i & j & a & b & Hij & Ha & Hb & Heq)]].
  - left. constructor.
  - destruct (decide (x ∈ xs)) as [Hin | Hout].
    + right. apply list_elem_of_lookup_1 in Hin as [j Hj].
      exists 0%nat, (S j), x, x. repeat split; [lia | exact Hj |].
      apply Card_eq_true_iff. reflexivity.
    + left. constructor; assumption.
  - right. exists (S i), (S j), a, b. repeat split; [lia | assumption ..].
Qed.

Lemma not_NoDup_iff_has_duplicate (xs : list Card) : ¬ NoDup xs <-> has_duplicate xs.
Proof.
  split; [| apply has_duplicate_not_NoDup].
  intros Hnd. destruct (NoDup_or_has_duplicate xs) as [H | H]; [contradiction | exact H].
Qed.

Section RuntimeFacts.

Variable hash_str : string -> Z.
Variable hash_tuple : list Z -> Z.


Lemma set_contains_true_iff (s : list Card) (x : Card) :
  set_contains hash_str hash_tuple s x = true <-> x ∈ s.
Proof.
  unfold set_contains. rewrite existsb_exists. split.
  - intros (y & Hy & Hxy). apply andb_true_iff in Hxy as [_ Heq].
    apply Card_eq_true_iff in Heq. subst y. apply list_elem_of_In, Hy.
  - intros Hx. exists x. split; [apply list_elem_of_In, Hx |].
    rewrite Z.eqb_refl. apply Card_eq_true_iff. reflexivity.
Qed.

Lemma fold_set_add_length_le (xs acc : list Card) :
  (length (fold_left (set_add hash_str hash_tuple) xs acc) <= length acc + length xs)%nat.
Proof.
  revert acc. induction xs as [| x xs IH]; intros acc; simpl; [lia |].
  specialize (IH (set_add hash_str hash_tuple acc x)). unfold set_add in *.
  destruct (set_contains hash_str hash_tuple acc x); [lia |].
  rewrite length_app in IH. simpl in IH. lia.
Qed.

Lemma fold_set_add_fresh (xs acc : list Card) :
  NoDup xs -> (forall x, x ∈ xs -> x ∉ acc) ->
  fold_left (set_add hash_str hash_tuple) xs acc = acc ++ xs.
Proof.
  revert acc. induction xs as [| x xs IH]; intros acc Hnd Hdis; simpl.
  - rewrite app_nil_r. reflexivity.
  - apply NoDup_cons in Hnd as [Hx Hnd].
    unfold set_add at 2.
    destruct (set_contains hash_str hash_tuple acc x) eqn:E.
    + apply set_contains_true_iff in E. exfalso. apply (Hdis x); [left | exact E].
    + rewrite IH; [rewrite <- app_assoc; reflexivity | exact Hnd |].
      intros y Hy Hin. apply elem_of_app in Hin as [Hin | Hin].
      * apply (Hdis y); [right; exact Hy | exact Hin].
      * apply list_elem_of_singleton in Hin. subst y. contradiction.
Qed.

Lemma fold_set_add_full (xs acc : list Card) :
  length (fold_left (set_add hash_str hash_tuple) xs acc) = (length acc + length xs)%nat ->
  NoDup xs ∧ (forall x, x ∈ xs -> x ∉ acc).
Proof.
  revert acc. induction xs as [| x xs IH]; intros acc Hlen; simpl in *.
  - split; [constructor | intros x Hx; inversion Hx].
  - unfold set_add in Hlen at 2.
    destruct (set_contains hash_str hash_tuple acc x) eqn:E.
    + pose proof (fold_set_add_length_le xs acc). lia.
    + destruct (IH (acc ++ [x])) as [Hnd Hdis].
      { rewrite Hlen, length_app. simpl. lia. }
      assert (x ∉ acc) as Hx.
      { intros Hin. apply set_contains_true_iff in Hin. congruence. }
      split.
      * constructor; [| exact Hnd].
        intros Hin. apply (Hdis x Hin). apply elem_of_app. right. left.
      * intros y Hy. apply elem_of_cons in Hy as [-> | Hy]; [exact Hx |].
        intros Hin. apply (Hdis y Hy). apply elem_of_app. left. exact Hin.
Qed.

Lemma py_set_length_iff (xs : list Card) :
  (length xs =? length (py_set hash_str hash_tuple xs))%nat = true <-> NoDup xs.
Proof.
  rewrite Nat.eqb_eq. unfold py_set. split.
  - intros Hlen. apply (fold_set_add_full xs []). simpl. lia.
  - intros Hnd. rewrite fold_set_add_fresh; [reflexivity | exact Hnd |].
    intros x _ Hin. inversion Hin.
Qed.

Lemma Deck_add_card_ok σ self d xs (card : Card) :
  deck_at σ self d xs ->
  Deck_add_card hash_str hash_tuple (self, card) σ
  = (Ok VNone, <[_cards d := OList (xs ++ [card])]> σ).
Proof.
  intros H. unfold Deck_add_card, fair_deck. step_deck H. reflexivity.
Qed.

Lemma Deck_cards_run σ self d xs :
  deck_at σ self d xs ->
  ∃ r, σ !! r = None
       ∧ Deck_cards hash_str hash_tuple self σ
         = (if (length xs =? length (py_set hash_str hash_tuple xs))%nat
            then Ok (VRef r)
            else Raise (DeckCheatingError "Duplicate cards detected!"),
            <[r := OList xs]> σ).
Proof.
  intros H. exists (fresh (dom σ)). split; [apply not_elem_of_dom, is_fresh |].
  unfold Deck_cards, fair_deck. step_deck H. unfold alloc. simpl.
  rewrite lookup_insert_eq.
  destruct (length xs =? length (py_set hash_str hash_tuple xs))%nat; reflexivity.
Qed.

Lemma Deck_cards_NoDup σ self d xs :
  deck_at σ self d xs -> NoDup xs ->
  ∃ r, σ !! r = None
       ∧ Deck_cards hash_str hash_tuple self σ = (Ok (VRef r), <[r := OList xs]> σ).
Proof.
  intros H Hnd. destruct (Deck_cards_run _ _ _ _ H) as (r & Hfresh & Hrun).
  exists r. split; [exact Hfresh |].
  apply py_set_length_iff in Hnd. rewrite Hnd in Hrun. exact Hrun.
Qed.

Lemma Deck_cards_dup σ self d xs :
  deck_at σ self d xs -> has_duplicate xs ->
  ∃ r, σ !! r = None
       ∧ Deck_cards hash_str hash_tuple self σ
         = (Raise (DeckCheatingError "Duplicate cards detected!"), <[r := OList xs]> σ).
Proof.
  intros H Hdup. destruct (Deck_cards_run _ _ _ _ H) as (r & Hfresh & Hrun).
  exists r. split; [exact Hfresh |].
  destruct (length xs =? length (py_set hash_str hash_tuple xs))%nat eqn:E; [| exact Hrun].
  apply py_set_length_iff in E. destruct (has_duplicate_not_NoDup _ Hdup E).
Qed.

End RuntimeFacts.

(** C2. Reading [cards] raises exactly when the deck holds two equal cards,
    and then the exception is [DeckCheatingError]; otherwise it returns a
    reference to a new list holding the deck's cards in front-to-back order.
    The new list is not the deck's list: whatever is written to it, by
    [append] or otherwise, the deck keeps its cards. *)
Theorem Deck_cards_snapshot (hash_str : string -> Z) (hash_tuple : list Z -> Z)
    (σ : gmap loc Obj) (self : loc) (d : Deck) (xs : list Card) :
  deck_at σ self d xs ->
  ((∃ e σ', Deck_cards hash_str hash_tuple self σ = (Raise e, σ')) <-> has_duplicate xs)
  ∧ (forall e σ', Deck_cards hash_str hash_tuple self σ = (Raise e, σ') ->
        e = DeckCheatingError "Duplicate cards detected!")
  ∧ (¬ has_duplicate xs ->
      ∃ r, Deck_cards hash_str hash_tuple self σ = (Ok (VRef r), <[r := OList xs]> σ)
           ∧ σ !! r = None
           ∧ r ≠ _cards d
           ∧ (<[r := OList xs]> σ) !! r = Some (OList xs)
           ∧ deck_at (<[r := OList xs]> σ) self d xs
           ∧ (forall ys : list Card,
                 deck_at (<[r := OList ys]> (<[r := OList xs]> σ)) self d xs)
           ∧ (forall c : Card,
                 list_append r c (<[r := OList xs]> σ)
                 = (Ok tt, <[r := OList (xs ++ [c])]> (<[r := OList xs]> σ)))).
Proof.
  intros H. destruct (Deck_cards_run hash_str hash_tuple _ _ _ _ H) as (r & Hfresh & Hrun).
  pose proof (py_set_length_iff hash_str hash_tuple xs) as Hset.
  destruct (length xs =? length (py_set hash_str hash_tuple xs))%nat.
  - assert (NoDup xs) as Hnd by (apply Hset; reflexivity).
    split; [| split].
    + split.
      * intros (e & σ' & He). rewrite Hrun in He. discriminate He.
      * intros Hdup. exfalso. exact (has_duplicate_not_NoDup _ Hdup Hnd).
    + intros e σ' He. rewrite Hrun in He. discriminate He.
    + intros _. exists r.
      assert (deck_at (<[r := OList xs]> σ) self d xs) as H'.
      { apply deck_at_alloc; assumption. }
      split; [exact Hrun |]. split; [exact Hfresh |].
      split; [intros ->; rewrite (proj2 H) in Hfresh; discriminate Hfresh |].
      split; [apply lookup_insert_eq |]. split; [exact H' |]. split.
      * intros ys. rewrite insert_insert_eq. apply deck_at_alloc; assumption.
      * intros c. unfold list_append, bind, get_list, set_list.
        rewrite lookup_insert_eq. reflexivity.
  - assert (has_duplicate xs) as Hdup.
    { apply not_NoDup_iff_has_duplicate. intros Hnd. apply Hset in Hnd. discriminate Hnd. }
    split; [| split].
    + split; [intros _; exact Hdup | intros _; eauto].
    + intros e σ' He. rewrite Hrun in He. injection He as <- _. reflexivity.
    + intros Hno. contradiction.
Qed.

(** C1. Adding a card that the deck already holds does not raise: on a deck
    built without shuffling, [add_card] of the two of clubs returns [None],
    the deck then holds 53 cards with the two of clubs twice, and only a later
    read of [cards] raises [DeckCheatingError].  In every deck [add_card]
    returns [None] and appends the card, so the length grows by one. *)
Theorem Deck_add_card_duplicate_not_detected (hash_str : string -> Z)
    (hash_tuple : list Z -> Z) (rnd : list nat) (σ : gmap loc Obj) :
  (∃ self σ0 d σ1 σ2,
      Deck_init false rnd σ = (Ok self, σ0)
      ∧ deck_at σ0 self d standard_cards
      ∧ mkCard CLUBS TWO ∈ standard_cards
      ∧ Deck_add_card hash_str hash_tuple (self, mkCard CLUBS TWO) σ0 = (Ok VNone, σ1)
      ∧ deck_at σ1 self d (standard_cards ++ [mkCard CLUBS TWO])
      ∧ Deck_len self σ1 = (Ok 53, σ1)
      ∧ Deck_cards hash_str hash_tuple self σ1
        = (Raise (DeckCheatingError "Duplicate cards detected!"), σ2))
  ∧ (forall (τ : gmap loc Obj) (t : loc) (d : Deck) (xs : list Card) (card : Card),
        deck_at τ t d xs ->
        ∃ τ', Deck_add_card hash_str hash_tuple (t, card) τ = (Ok VNone, τ')
              ∧ deck_at τ' t d (xs ++ [card])
              ∧ Deck_len t τ' = (Ok (Z.of_nat (length xs) + 1), τ')).
Proof.
  assert (forall (τ : gmap loc Obj) (t : loc) (d : Deck) (xs : list Card) (card : Card),
             deck_at τ t d xs ->
             ∃ τ', Deck_add_card hash_str hash_tuple (t, card) τ = (Ok VNone, τ')
                   ∧ deck_at τ' t d (xs ++ [card])
                   ∧ Deck_len t τ' = (Ok (Z.of_nat (length xs) + 1), τ')) as Hadd.
  { intros τ t d xs card H. eexists. split; [eapply Deck_add_card_ok, H |].
    assert (deck_at (<[_cards d := OList (xs ++ [card])]> τ) t d (xs ++ [card])) as H'.
    { eapply deck_at_set_list, H. }
    split; [exact H' |]. rewrite (Deck_len_ok _ _ _ _ H'), length_app. simpl.
    do 2 f_equal. lia. }
  split; [| exact Hadd].
  destruct (Deck_init_unshuffled_deck_at rnd σ) as (self & σ0 & d & Hrun & Hat & _).
  destruct (Hadd _ _ _ _ (mkCard CLUBS TWO) Hat) as (σ1 & Hcall & Hat1 & Hlen).
  destruct (Deck_cards_dup hash_str hash_tuple _ _ _ _ Hat1) as (r & _ & Hread).
  { exists 0%nat, 52%nat, (mkCard CLUBS TWO), (mkCard CLUBS TWO).
    split; [lia |]. split; [reflexivity |]. split; reflexivity. }
  exists self, σ0, d, σ1, (<[r := OList (standard_cards ++ [mkCard CLUBS TWO])]> σ1).
  split; [exact Hrun |]. split; [exact Hat |].
  split; [eapply list_elem_of_lookup_2, (standard_cards_lookup CLUBS TWO) |].
  split; [exact Hcall |]. split; [exact Hat1 |]. split; [exact Hlen | exact Hread].
Qed.

(** * The theorems at work on the sample store *)

Lemma Deck_getitem_in_range_witness :
  deck_at sample_store 2%positive (mkDeck 1%positive 0) sample_cards
  ∧ Deck_getitem 2%positive (Z.of_nat (length sample_cards)) sample_store
    = (Raise IndexError, sample_store).
Proof.
  assert (deck_at sample_store 2%positive (mkDeck 1%positive 0) sample_cards) as H
    by (split; reflexivity).
  split; [exact H |].
  exact (proj2 (proj2 (proj2 (Deck_getitem_in_range _ _ _ _ H)))).
Defined.

Lemma Deck_getitem_negative_witness :
  deck_at sample_store 2%positive (mkDeck 1%positive 0) sample_cards
  ∧ ∃ c, sample_cards !! Z.to_nat (Z.of_nat (length sample_cards) - 1) = Some c
         ∧ Deck_getitem 2%positive (- 1) sample_store = (Ok c, sample_store).
Proof.
  assert (deck_at sample_store 2%positive (mkDeck 1%positive 0) sample_cards) as H
    by (split; reflexivity).
  split; [exact H |].
  apply (Deck_getitem_negative _ _ _ _ 1 H). simpl. lia.
Defined.

Lemma Deck_iterate_visits_all_witness :
  deck_at sample_store 2%positive (mkDeck 1%positive 0) sample_cards
  ∧ ∃ σ', iterate 4 2%positive sample_store = (Ok (Some sample_cards), σ').
Proof.
  assert (deck_at sample_store 2%positive (mkDeck 1%positive 0) sample_cards) as H
    by (split; reflexivity).
  split; [exact H |].
  destruct (Deck_iterate_visits_all _ _ _ _ 4%nat H) as (σ' & Hrun & _); [simpl; lia |].
  exists σ'. exact Hrun.
Defined.

Lemma Deck_cards_snapshot_witness :
  deck_at sample_store 4%positive (mkDeck 3%positive 0) cheating_cards
  ∧ has_duplicate cheating_cards
  ∧ ∃ e σ', Deck_cards sample_hash_str sample_hash_tuple 4%positive sample_store
            = (Raise e, σ').
Proof.
  assert (deck_at sample_store 4%positive (mkDeck 3%positive 0) cheating_cards) as H
    by (split; reflexivity).
  assert (has_duplicate cheating_cards) as Hdup.
  { exists 0%nat, 2%nat, (mkCard HEARTS TWO), (mkCard HEARTS TWO).
    split; [lia |]. split; [reflexivity |]. split; reflexivity. }
  split; [exact H |]. split; [exact Hdup |].
  exact (proj2 (proj1 (Deck_cards_snapshot sample_hash_str sample_hash_tuple _ _ _ _ H)) Hdup).
Defined.

(** * Shuffling *)

Lemma insert_swap_Permutation (l : list Card) (i : nat) (a b : Card) :
  l !! i = Some a -> a :: <[i := b]> l ≡ₚ b :: l.
Proof.
  revert i. induction l as [| x l IH]; intros [| i] Hi; simpl in *; try discriminate.
  - injection Hi as ->. apply perm_swap.
  - rewrite (perm_swap x a), (IH i Hi). apply perm_swap.
Qed.

Lemma swap_Permutation (i j : nat) (xs : list Card) : swap i j xs ≡ₚ xs.
Proof.
  unfold swap. destruct (xs !! i) as [a |] eqn:Ha; [| reflexivity].
  destruct (xs !! j) as [b |] eqn:Hb; [| reflexivity].
  destruct (decide (i = j)) as [-> | Hne].
  - rewrite Ha in Hb. injection Hb as ->.
    rewrite (list_insert_id xs j b Ha), (list_insert_id xs j b Ha). reflexivity.
  - apply (Permutation_cons_inv (a := a)).
    rewrite insert_swap_Permutation.
    + apply insert_swap_Permutation, Hb.
    + rewrite list_lookup_insert_ne by congruence. exact Ha.
Qed.

Lemma fisher_yates_Permutation (i : nat) (rnd : list nat) (xs : list Card) :
  fisher_yates i rnd xs ≡ₚ xs.
Proof.
  revert rnd xs. induction i as [| i IH]; intros rnd xs; simpl; [reflexivity |].
  rewrite IH. apply swap_Permutation.
Qed.

Lemma has_duplicate_Permutation (xs ys : list Card) :
  xs ≡ₚ ys -> has_duplicate xs <-> has_duplicate ys.
Proof.
  intros Hp. rewrite <- !not_NoDup_iff_has_duplicate, Hp. reflexivity.
Qed.

Lemma Deck_shuffle_ok σ self d xs (rnd : list nat) :
  deck_at σ self d xs ->
  Deck_shuffle self rnd σ
  = (Ok VNone, <[_cards d := OList (fisher_yates (length xs - 1) rnd xs)]> σ).
Proof.
  intros H. unfold Deck_shuffle, random_shuffle. step_deck H. reflexivity.
Qed.

(** X1. [shuffle] returns [None] and raises nothing; afterwards the deck holds
    a rearrangement of the cards it held (same cards, same multiplicities,
    same length), so it has two equal cards exactly when it had before; the
    cursor is untouched and a deck of at most one card is left as it was. *)
Theorem Deck_shuffle_permutes (σ : gmap loc Obj) (self : loc) (d : Deck)
    (xs : list Card) (rnd : list nat) :
  deck_at σ self d xs ->
  ∃ ys σ',
    Deck_shuffle self rnd σ = (Ok VNone, σ')
    ∧ deck_at σ' self d ys
    ∧ ys ≡ₚ xs
    ∧ length ys = length xs
    ∧ (has_duplicate ys <-> has_duplicate xs)
    ∧ ((length xs <= 1)%nat -> ys = xs).
Proof.
  intros H. exists (fisher_yates (length xs - 1) rnd xs). eexists.
  pose proof (fisher_yates_Permutation (length xs - 1) rnd xs) as Hp.
  split; [eapply Deck_shuffle_ok, H |].
  split; [eapply deck_at_set_list, H |].
  split; [exact Hp |].
  split; [rewrite Hp; reflexivity |].
  split; [apply has_duplicate_Permutation, Hp |].
  intros Hlen. replace (length xs - 1)%nat with 0%nat by lia. reflexivity.
Qed.

Lemma Deck_init_run (shuffle : bool) (rnd : list nat) (σ : gmap loc Obj) :
  ∃ self σ' d ys,
    Deck_init shuffle rnd σ = (Ok self, σ')
    ∧ deck_at σ' self d ys
    ∧ _index d = 0
    ∧ ys = (if shuffle then fisher_yates (length standard_cards - 1) rnd standard_cards
            else standard_cards)
    ∧ (forall l : loc, is_Some (σ !! l) -> σ' !! l = σ !! l).
Proof.
  destruct (alloc_fresh (OList standard_cards) σ) as (cards & Hc & Hfc).
  set (ys := if shuffle then fisher_yates (length standard_cards - 1) rnd standard_cards
             else standard_cards).
  destruct (alloc_fresh (ODeck (mkDeck cards 0)) (<[cards := OList ys]> σ))
    as (self & Hs & Hfs).
  assert (self ≠ cards) as Hne.
  { intros ->. rewrite lookup_insert_eq in Hfs. discriminate Hfs. }
  exists self, (<[self := ODeck (mkDeck cards 0)]> (<[cards := OList ys]> σ)),
    (mkDeck cards 0), ys.
  split; [| split; [| split; [reflexivity | split; [reflexivity |]]]].
  - unfold Deck_init, bind at 1 2. rewrite Hc. subst ys. destruct shuffle.
    + unfold random_shuffle, bind, get_list, set_list.
      rewrite lookup_insert_eq, insert_insert_eq. exact Hs.
    + unfold ret. exact Hs.
  - split; [apply lookup_insert_eq |]. simpl.
    rewrite lookup_insert_ne by congruence. apply lookup_insert_eq.
  - intros l [o Ho]. rewrite lookup_insert_ne in Hfs by congruence.
    rewrite !lookup_insert_ne; [reflexivity | |]; intros ->; congruence.
Qed.

(** X2. A new deck, shuffled or not, holds a rearrangement of the 52 standard
    cards: 52 cards, no card twice, every suit and rank combination present;
    its cursor is 0, the objects that existed before are untouched, and a
    read of [cards] on it returns a list and raises nothing. *)
Theorem Deck_init_is_full_deck (hash_str : string -> Z) (hash_tuple : list Z -> Z)
    (shuffle : bool) (rnd : list nat) (σ : gmap loc Obj) :
  ∃ self σ' d ys r,
    Deck_init shuffle rnd σ = (Ok self, σ')
    ∧ deck_at σ' self d ys
    ∧ _index d = 0
    ∧ ys ≡ₚ standard_cards
    ∧ length ys = 52%nat
    ∧ NoDup ys
    ∧ (forall (s : CardSuit) (k : CardRank), mkCard s k ∈ ys)
    ∧ (forall l : loc, is_Some (σ !! l) -> σ' !! l = σ !! l)
    ∧ Deck_cards hash_str hash_tuple self σ' = (Ok (VRef r), <[r := OList ys]> σ').
Proof.
  destruct (Deck_init_run shuffle rnd σ) as (self & σ' & d & ys & Hrun & Hat & Hidx & Hys & Hold).
  assert (ys ≡ₚ standard_cards) as Hp.
  { subst ys. destruct shuffle; [apply fisher_yates_Permutation | reflexivity]. }
  assert (NoDup ys) as Hnd by (rewrite Hp; exact standard_cards_NoDup).
  destruct (Deck_cards_NoDup hash_str hash_tuple _ _ _ _ Hat Hnd) as (r & _ & Hread).
  exists self, σ', d, ys, r.
  split; [exact Hrun |]. split; [exact Hat |]. split; [exact Hidx |].
  split; [exact Hp |]. split; [rewrite Hp; reflexivity |]. split; [exact Hnd |].
  split; [| split; [exact Hold | exact Hread]].
  intros s k. rewrite Hp. eapply list_elem_of_lookup_2, standard_cards_lookup.
Qed.

(** * The decorator on its own *)

Lemma fair_deck_run (hash_str : string -> Z) (hash_tuple : list Z -> Z)
    {Args : Type} (func : Args -> M Value) (args : Args) (σ : gmap loc Obj) :
  fair_deck hash_str hash_tuple func args σ
  = match func args σ with
    | (Ok (VRef r), σ') =>
        match σ' !! r with
        | Some (OList xs) =>
            if bool_decide (NoDup xs) then (Ok (VRef r), σ')
            else (Raise (DeckCheatingError "Duplicate cards detected!"), σ')
        | _ => (Ok (VRef r), σ')
        end
    | other => other
    end.
Proof.
  unfold fair_deck, bind. destruct (func args σ) as [[v | e] σ']; [| reflexivity].
  destruct v as [| | b | z | s | c | r]; try reflexivity.
  destruct (σ' !! r) as [[xs | dk] |]; try reflexivity.
  pose proof (py_set_length_iff hash_str hash_tuple xs) as Hset.
  destruct (length xs =? length (py_set hash_str hash_tuple xs))%nat; simpl.
  - rewrite bool_decide_eq_true_2; [reflexivity | apply Hset; reflexivity].
  - rewrite bool_decide_eq_false_2; [reflexivity |].
    intros Hnd. apply Hset in Hnd. discriminate Hnd.
Qed.

(** X3. [fair_deck] adds a check and nothing else: the wrapped call leaves the
    store exactly as the function left it; an exception of the function
    propagates unchanged; a result that is not a list object, or a list whose
    cards are all different, is returned as it is; a list result with two
    equal cards is replaced by [DeckCheatingError]. *)
Theorem fair_deck_transparent (hash_str : string -> Z) (hash_tuple : list Z -> Z)
    {Args : Type} (func : Args -> M Value) (args : Args) (σ : gmap loc Obj) :
  (fair_deck hash_str hash_tuple func args σ).2 = (func args σ).2
  ∧ (forall e : Exn,
        (func args σ).1 = Raise e ->
        (fair_deck hash_str hash_tuple func args σ).1 = Raise e)
  ∧ (forall v : Value,
        (func args σ).1 = Ok v ->
        (forall (r : loc) (xs : list Card),
            v = VRef r -> (func args σ).2 !! r = Some (OList xs) -> NoDup xs) ->
        (fair_deck hash_str hash_tuple func args σ).1 = Ok v)
  ∧ (forall (r : loc) (xs : list Card),
        (func args σ).1 = Ok (VRef r) ->
        (func args σ).2 !! r = Some (OList xs) ->
        has_duplicate xs ->
        (fair_deck hash_str hash_tuple func args σ).1
        = Raise (DeckCheatingError "Duplicate cards detected!")).
Proof.
  rewrite fair_deck_run. destruct (func args σ) as [[v | e] σ']; simpl.
  - destruct v as [| | b | z | s | c | r];
      try (split; [reflexivity |]; split; [intros e He; discriminate He |];
           split; [intros v Hv _; exact Hv | intros r xs Hr; discriminate Hr]).
    destruct (σ' !! r) as [[xs | dk] |] eqn:Hl;
      try (split; [reflexivity |]; split; [intros e He; discriminate He |];
           split; [intros v Hv _; exact Hv |];
           intros r' xs' Hr Hl'; injection Hr as <-; rewrite Hl in Hl'; discriminate Hl').
    split; [destruct (bool_decide (NoDup xs)); reflexivity |].
    split; [intros e He; destruct (bool_decide (NoDup xs)); discriminate He |].
    split.
    + intros v Hv Hall. rewrite bool_decide_eq_true_2.
      * exact Hv.
      * apply (Hall r xs); [| exact Hl].
        destruct (bool_decide (NoDup xs)); simpl in Hv; congruence.
    + intros r' xs' Hr Hl' Hdup.
      assert (r' = r) as -> by (destruct (bool_decide (NoDup xs)); simpl in Hr; congruence).
      rewrite Hl in Hl'. injection Hl' as <-.
      rewrite bool_decide_eq_false_2; [reflexivity |].
      apply has_duplicate_not_NoDup, Hdup.
  - split; [reflexivity |]. split; [intros e' H; exact H |].
    split; [intros v Hv; discriminate Hv | intros r xs Hr; discriminate Hr].
Qed.

(** * How the operations compose *)

Lemma norm_index_in_range (len : nat) (i : Z) :
  - Z.of_nat len <= i < Z.of_nat len ->
  ∃ n, norm_index len i = Some n ∧ (n < len)%nat
       ∧ Z.of_nat n = (if i <? 0 then i + Z.of_nat len else i).
Proof.
  intros Hi. unfold norm_index.
  destruct (Z.ltb_spec i 0) as [Hneg | Hpos].
  - destruct (Z.leb_spec 0 (i + Z.of_nat len)) as [_ | Hbad]; [| lia].
    destruct (Z.ltb_spec (i + Z.of_nat len) (Z.of_nat len)) as [_ | Hbad]; [| lia].
    simpl. eexists. split; [reflexivity |]. lia.
  - destruct (Z.leb_spec 0 i) as [_ | Hbad]; [| lia].
    destruct (Z.ltb_spec i (Z.of_nat len)) as [_ | Hbad]; [| lia].
    simpl. eexists. split; [reflexivity |]. lia.
Qed.

Lemma norm_index_out_of_range (len : nat) (i : Z) :
  ¬ (- Z.of_nat len <= i < Z.of_nat len) -> norm_index len i = None.
Proof.
  intros Hi. unfold norm_index.
  destruct (Z.ltb_spec i 0) as [Hneg | Hpos].
  - destruct (Z.leb_spec 0 (i + Z.of_nat len)) as [Hok | _]; [lia | reflexivity].
  - destruct (Z.ltb_spec i (Z.of_nat len)) as [Hok | _]; [lia |].
    rewrite andb_false_r. reflexivity.
Qed.

(** X4. Indexing a deck of [n] cards returns a card exactly for the indices
    from [-n] to [n - 1]; every other index raises [IndexError]; a negative
    index in range reads the same card as that index plus [n]; whatever the
    index, the store is left as it was.  On an empty deck every index raises. *)
Theorem Deck_getitem_domain (σ : gmap loc Obj) (self : loc) (d : Deck)
    (xs : list Card) (i : Z) :
  deck_at σ self d xs ->
  ((∃ c, Deck_getitem self i σ = (Ok c, σ)) <-> - Z.of_nat (length xs) <= i < Z.of_nat (length xs))
  ∧ (¬ (- Z.of_nat (length xs) <= i < Z.of_nat (length xs)) ->
       Deck_getitem self i σ = (Raise IndexError, σ))
  ∧ (- Z.of_nat (length xs) <= i < 0 ->
       Deck_getitem self i σ = Deck_getitem self (i + Z.of_nat (length xs)) σ)
  ∧ (Deck_getitem self i σ).2 = σ.
Proof.
  intros H.
  assert (forall j : Z, - Z.of_nat (length xs) <= j < Z.of_nat (length xs) ->
            ∃ n c, Z.of_nat n = (if j <? 0 then j + Z.of_nat (length xs) else j)
                   ∧ xs !! n = Some c ∧ Deck_getitem self j σ = (Ok c, σ)) as Hin.
  { intros j Hj. destruct (norm_index_in_range _ _ Hj) as (n & Hn & Hlt & Hval).
    destruct (lookup_lt_is_Some_2 xs n Hlt) as [c Hc].
    exists n, c. split; [exact Hval |]. split; [exact Hc |].
    unfold Deck_getitem. step_deck H. rewrite Hn, Hc. reflexivity. }
  assert (¬ (- Z.of_nat (length xs) <= i < Z.of_nat (length xs)) ->
          Deck_getitem self i σ = (Raise IndexError, σ)) as Hout.
  { intros Hi. eapply Deck_getitem_out; [exact H | apply norm_index_out_of_range, Hi]. }
  split; [| split; [exact Hout | split]].
  - split.
    + intros [c Hc].
      destruct (decide (- Z.of_nat (length xs) <= i < Z.of_nat (length xs))) as [Hi | Hi];
        [exact Hi |].
      rewrite (Hout Hi) in Hc. discriminate Hc.
    + intros Hi. destruct (Hin i Hi) as (n & c & _ & _ & Hget). exists c. exact Hget.
  - intros Hi.
    destruct (Hin i) as (n & c & Hn & Hc & ->); [lia |].
    destruct (Hin (i + Z.of_nat (length xs))) as (n' & c' & Hn' & Hc' & ->); [lia |].
    destruct (Z.ltb_spec i 0) as [_ | Hbad]; [| lia].
    destruct (Z.ltb_spec (i + Z.of_nat (length xs)) 0) as [Hbad | _]; [lia |].
    assert (n = n') as -> by lia. congruence.
  - destruct (decide (- Z.of_nat (length xs) <= i < Z.of_nat (length xs))) as [Hi | Hi].
    + destruct (Hin i Hi) as (n & c & _ & _ & ->). reflexivity.
    + rewrite (Hout Hi). reflexivity.
Qed.

Lemma draws_empty σ self d (k : nat) :
  deck_at σ self d [] -> draws k self σ = (Ok (replicate k VNone), σ).
Proof.
  intros H. induction k as [| k IH]; [reflexivity |].
  simpl. unfold bind at 1. rewrite (Deck_draw_empty _ _ _ H).
  unfold bind at 1. rewrite IH. reflexivity.
Qed.

(** X5. Drawing more often than the deck has cards: the first draws return
    the cards front to back, every further draw returns [None], nothing is
    raised, and the deck ends empty with its cursor untouched. *)
Theorem draws_past_the_end (σ : gmap loc Obj) (self : loc) (d : Deck)
    (xs : list Card) (k : nat) :
  deck_at σ self d xs ->
  ∃ σ',
    draws (length xs + k) self σ = (Ok ((VCard <$> xs) ++ replicate k VNone), σ')
    ∧ deck_at σ' self d []
    ∧ Deck_len self σ' = (Ok 0, σ').
Proof.
  revert σ. induction xs as [| x xs IH]; intros σ H.
  - exists σ. split; [apply (draws_empty _ _ _ _ H) |]. split; [exact H |].
    apply (Deck_len_ok _ _ _ _ H).
  - destruct (IH (<[_cards d := OList xs]> σ)) as (σ' & Hrun & Hend & Hlen).
    { eapply deck_at_set_list, H. }
    exists σ'. split; [| split; assumption].
    simpl. unfold bind at 1. rewrite (Deck_draw_cons _ _ _ _ _ H).
    unfold bind at 1. rewrite Hrun. reflexivity.
Qed.

(** * The iterator is the deck *)

Lemma deck_at_cursor σ self d xs :
  deck_at σ self d xs -> <[self := ODeck (mkDeck (_cards d) (_index d))]> σ = σ.
Proof. intros H. apply insert_id. destruct d. exact (proj1 H). Qed.

Lemma nexts_from σ self d xs (i k : nat) :
  deck_at σ self d xs -> _index d = Z.of_nat i -> (i + k <= length xs)%nat ->
  nexts k self σ
  = (Ok (take k (drop i xs)),
     <[self := ODeck (mkDeck (_cards d) (Z.of_nat (i + k)))]> σ).
Proof.
  revert σ d i. induction k as [| k IH]; intros σ d i H Hi Hlen.
  - simpl. unfold ret. rewrite Nat.add_0_r, <- Hi, (deck_at_cursor _ _ _ _ H). reflexivity.
  - destruct (lookup_lt_is_Some_2 xs i) as [c Hc]; [lia |].
    simpl. unfold bind at 1. rewrite (Deck_next_step _ _ _ _ _ _ H Hi Hc).
    unfold bind at 1.
    rewrite (IH _ (mkDeck (_cards d) (Z.of_nat (S i))) (S i)).
    + rewrite insert_insert_eq, (drop_S _ _ _ Hc). unfold ret. simpl.
      replace (i + S k)%nat with (S (i + k)) by lia. reflexivity.
    + eapply deck_at_set_deck; [exact H | reflexivity].
    + reflexivity.
    + lia.
Qed.

Lemma iterate_run σ self d xs (fuel : nat) :
  deck_at σ self d xs -> (length xs < fuel)%nat ->
  iterate fuel self σ
  = (Ok (Some xs), <[self := ODeck (mkDeck (_cards d) (Z.of_nat (length xs)))]> σ).
Proof.
  intros H Hfuel. unfold iterate, bind. rewrite (Deck_iter_ok _ _ _ _ H).
  rewrite (for_each_from _ self (mkDeck (_cards d) 0) xs 0%nat fuel []).
  - rewrite insert_insert_eq. reflexivity.
  - eapply deck_at_set_deck; [exact H | reflexivity].
  - reflexivity.
  - lia.
  - lia.
Qed.

(** X6. [iter(deck)] returns the deck itself, so all iterations over one deck
    share one cursor: after [k] elements have been taken, a second
    [iter(deck)] returns the same object and puts the store back exactly where
    it was after the first one, so that the elements come again from the
    front. *)
Theorem Deck_iter_shares_cursor (σ : gmap loc Obj) (self : loc) (d : Deck)
    (xs : list Card) (k : nat) :
  deck_at σ self d xs ->
  (k <= length xs)%nat ->
  ∃ σ1 σk,
    Deck_iter self σ = (Ok self, σ1)
    ∧ nexts k self σ1 = (Ok (take k xs), σk)
    ∧ Deck_iter self σk = (Ok self, σ1)
    ∧ nexts k self σ1 = nexts k self (Deck_iter self σk).2.
Proof.
  intros H Hk.
  assert (deck_at (<[self := ODeck (mkDeck (_cards d) 0)]> σ) self (mkDeck (_cards d) 0) xs)
    as H1 by (eapply deck_at_set_deck; [exact H | reflexivity]).
  pose proof (nexts_from _ _ _ _ 0%nat k H1 eq_refl Hk) as Hn. simpl in Hn.
  rewrite insert_insert_eq in Hn.
  assert (deck_at (<[self := ODeck (mkDeck (_cards d) (Z.of_nat k))]> σ) self
            (mkDeck (_cards d) (Z.of_nat k)) xs)
    as Hk' by (eapply deck_at_set_deck; [exact H | reflexivity]).
  pose proof (Deck_iter_ok _ _ _ _ Hk') as Hi2. simpl in Hi2.
  rewrite insert_insert_eq in Hi2.
  eexists _, _. split; [apply (Deck_iter_ok _ _ _ _ H) |].
  split; [exact Hn |]. split; [exact Hi2 |]. rewrite Hi2. reflexivity.
Qed.

(** X7. Once a full iteration has ended, [next] keeps raising [StopIteration]
    and changes nothing; but the cursor stays where the list ended, so after
    an [add_card] the same iterator yields again: [next] returns the card just
    added. *)
Theorem Deck_next_after_exhaustion (hash_str : string -> Z) (hash_tuple : list Z -> Z)
    (σ : gmap loc Obj) (self : loc) (d : Deck) (xs : list Card) (fuel : nat) :
  deck_at σ self d xs ->
  (length xs < fuel)%nat ->
  ∃ σ1,
    iterate fuel self σ = (Ok (Some xs), σ1)
    ∧ Deck_next self σ1 = (Raise StopIteration, σ1)
    ∧ (forall c : Card,
          ∃ σ2 σ3,
            Deck_add_card hash_str hash_tuple (self, c) σ1 = (Ok VNone, σ2)
            ∧ Deck_next self σ2 = (Ok c, σ3)
            ∧ Deck_next self σ3 = (Raise StopIteration, σ3)).
Proof.
  intros H Hfuel. set (d1 := mkDeck (_cards d) (Z.of_nat (length xs))).
  assert (deck_at (<[self := ODeck d1]> σ) self d1 xs)
    as H1 by (eapply deck_at_set_deck; [exact H | reflexivity]).
  eexists. split; [apply (iterate_run _ _ _ _ _ H Hfuel) |]. fold d1.
  split; [eapply Deck_next_stop; [exact H1 | simpl; lia] |].
  intros c.
  assert (deck_at (<[_cards d1 := OList (xs ++ [c])]> (<[self := ODeck d1]> σ)) self d1 (xs ++ [c]))
    as H2 by (eapply deck_at_set_list, H1).
  assert ((xs ++ [c]) !! length xs = Some c) as Hc.
  { rewrite lookup_app_r by lia. rewrite Nat.sub_diag. reflexivity. }
  eexists _, _. split; [apply (Deck_add_card_ok _ _ _ _ _ _ _ H1) |].
  split; [apply (Deck_next_step _ _ _ _ (length xs) c H2 eq_refl Hc) |].
  eapply Deck_next_stop.
  - eapply deck_at_set_deck; [exact H2 | reflexivity].
  - simpl. rewrite length_app. simpl. lia.
Qed.

Lemma alternate_drop (ys : list Card) (i : nat) (c : Card) :
  ys !! i = Some c -> alternate (drop i ys) = c :: alternate (drop (S (S i)) ys).
Proof.
  intros Hc. rewrite (drop_S _ _ _ Hc). simpl. f_equal.
  replace (drop (S (S i)) ys) with (drop 1 (drop (S i) ys))
    by (rewrite drop_drop; f_equal; lia).
  destruct (drop (S i) ys); reflexivity.
Qed.

Lemma alternate_length (xs : list Card) :
  length (alternate xs) = Nat.div2 (S (length xs))
  ∧ length (alternate (tail xs)) = Nat.div2 (length xs).
Proof.
  induction xs as [| x xs [IH1 IH2]]; [split; reflexivity |].
  split; [| exact IH1].
  destruct xs as [| y xs]; [reflexivity |]. simpl in *. rewrite IH2. reflexivity.
Qed.

Lemma for_loop_drawing_from σ self d ys (i fuel : nat) (seen : list Card) :
  deck_at σ self d ys -> _index d = Z.of_nat i -> (length ys - i < fuel)%nat ->
  ∃ σ' d',
    for_loop fuel self (fun _ => Deck_draw self ;;; ret tt) seen σ
    = (Ok (Some (seen ++ alternate (drop i ys))), σ')
    ∧ _cards d' = _cards d
    ∧ deck_at σ' self d' (drop (length (alternate (drop i ys))) ys).
Proof.
  revert σ d ys i seen. induction fuel as [| fuel IH]; intros σ d ys i seen H Hi Hfuel; [lia |].
  simpl. destruct (decide (length ys <= i)%nat) as [Hge | Hlt].
  - rewrite (Deck_next_stop _ _ _ _ H) by lia.
    rewrite drop_ge by exact Hge. simpl. rewrite app_nil_r.
    exists σ, d. split; [reflexivity |]. split; [reflexivity | exact H].
  - destruct (lookup_lt_is_Some_2 ys i) as [c Hc]; [lia |].
    rewrite (Deck_next_step _ _ _ _ _ _ H Hi Hc).
    set (d1 := mkDeck (_cards d) (Z.of_nat (S i))).
    assert (deck_at (<[self := ODeck d1]> σ) self d1 ys)
      as H1 by (eapply deck_at_set_deck; [exact H | reflexivity]).
    destruct ys as [| y ys]; [discriminate Hc |].
    unfold bind at 1. rewrite (Deck_draw_cons _ _ _ _ _ H1). unfold ret at 1.
    destruct (IH (<[_cards d1 := OList ys]> (<[self := ODeck d1]> σ)) d1 ys (S i) (seen ++ [c]))
      as (σ' & d' & Hrun & Hcards & Hend).
    + eapply deck_at_set_list, H1.
    + reflexivity.
    + cbn [length] in Hfuel, Hlt. lia.
    + exists σ', d'. rewrite (alternate_drop _ _ _ Hc).
      change (drop (S (S i)) (y :: ys)) with (drop (S i) ys).
      split; [rewrite Hrun, <- app_assoc; reflexivity |].
      split; [exact Hcards | exact Hend].
Qed.

(** X8. Drawing inside a loop over the same deck makes the loop skip cards:
    [for c in deck: deck.draw()] ends normally, its body runs on every other
    card of the deck only (the first, the third, ...), that is on half of the
    cards rounded up, and the cards left in the deck are the later half. *)
Theorem iterate_drawing_skips (σ : gmap loc Obj) (self : loc) (d : Deck)
    (xs : list Card) (fuel : nat) :
  deck_at σ self d xs ->
  (length xs < fuel)%nat ->
  ∃ σ' d',
    iterate_drawing fuel self σ = (Ok (Some (alternate xs)), σ')
    ∧ deck_at σ' self d' (drop (length (alternate xs)) xs)
    ∧ length (alternate xs) = Nat.div2 (S (length xs))
    ∧ Deck_len self σ' = (Ok (Z.of_nat (Nat.div2 (length xs))), σ').
Proof.
  intros H Hfuel.
  assert (deck_at (<[self := ODeck (mkDeck (_cards d) 0)]> σ) self (mkDeck (_cards d) 0) xs)
    as H1 by (eapply deck_at_set_deck; [exact H | reflexivity]).
  destruct (for_loop_drawing_from _ _ _ _ 0%nat fuel [] H1 eq_refl) as (σ' & d' & Hrun & _ & Hend);
    [lia |].
  rewrite drop_0 in Hrun, Hend. rewrite app_nil_l in Hrun. exists σ', d'.
  pose proof (alternate_length xs) as [Hlen _].
  split; [unfold iterate_drawing, bind; rewrite (Deck_iter_ok _ _ _ _ H); exact Hrun |].
  split; [exact Hend |]. split; [exact Hlen |].
  rewrite (Deck_len_ok _ _ _ _ Hend), length_drop, Hlen. do 3 f_equal.
  generalize (length xs). intros n.
  pose proof (Nat.div2_odd n) as Hn. pose proof (Nat.div2_odd (S n)) as HSn.
  rewrite Nat.odd_succ in HSn. rewrite <- Nat.negb_odd in HSn.
  destruct (Nat.odd n); simpl in *; lia.
Qed.

(** * Reads, additions and duplicates *)

(** X9. The list returned by [cards] is a snapshot: later additions to the
    deck, draws from it and shuffles of it leave the returned list as it was;
    and a second read returns another new list, not the first one. *)
Theorem Deck_cards_snapshot_is_frozen (hash_str : string -> Z) (hash_tuple : list Z -> Z)
    (σ : gmap loc Obj) (self : loc) (d : Deck) (xs : list Card) :
  deck_at σ self d xs ->
  NoDup xs ->
  ∃ r σ1,
    Deck_cards hash_str hash_tuple self σ = (Ok (VRef r), σ1)
    ∧ σ1 !! r = Some (OList xs)
    ∧ (forall c : Card,
          ∃ σ2, Deck_add_card hash_str hash_tuple (self, c) σ1 = (Ok VNone, σ2)
                ∧ σ2 !! r = Some (OList xs))
    ∧ (∃ v σ2, Deck_draw self σ1 = (Ok v, σ2) ∧ σ2 !! r = Some (OList xs))
    ∧ (forall rnd : list nat,
          ∃ σ2, Deck_shuffle self rnd σ1 = (Ok VNone, σ2) ∧ σ2 !! r = Some (OList xs))
    ∧ (∃ r2 σ2, Deck_cards hash_str hash_tuple self σ1 = (Ok (VRef r2), σ2)
                ∧ r2 ≠ r ∧ σ2 !! r2 = Some (OList xs) ∧ σ2 !! r = Some (OList xs)).
Proof.
  intros H Hnd.
  destruct (Deck_cards_NoDup hash_str hash_tuple _ _ _ _ H Hnd) as (r & Hfresh & Hread).
  assert (deck_at (<[r := OList xs]> σ) self d xs) as H1 by (apply deck_at_alloc; assumption).
  assert (r ≠ _cards d) as Hne.
  { intros ->. rewrite (proj2 H) in Hfresh. discriminate Hfresh. }
  assert (forall ys, (<[_cards d := OList ys]> (<[r := OList xs]> σ)) !! r = Some (OList xs)) as Hkeep.
  { intros ys. rewrite lookup_insert_ne by congruence. apply lookup_insert_eq. }
  exists r, (<[r := OList xs]> σ).
  split; [exact Hread |]. split; [apply lookup_insert_eq |].
  split; [| split; [| split]].
  - intros c. eexists. split; [apply (Deck_add_card_ok _ _ _ _ _ _ _ H1) | apply Hkeep].
  - destruct xs as [| x xs].
    + eexists _, _. split; [apply (Deck_draw_empty _ _ _ H1) | apply lookup_insert_eq].
    + eexists _, _. split; [apply (Deck_draw_cons _ _ _ _ _ H1) | apply Hkeep].
  - intros rnd. eexists. split; [apply (Deck_shuffle_ok _ _ _ _ _ H1) | apply Hkeep].
  - destruct (Deck_cards_NoDup hash_str hash_tuple _ _ _ _ H1 Hnd) as (r2 & Hfresh2 & Hread2).
    assert (r2 ≠ r) as Hne2.
    { intros ->. rewrite lookup_insert_eq in Hfresh2. discriminate Hfresh2. }
    exists r2, (<[r2 := OList xs]> (<[r := OList xs]> σ)).
    split; [exact Hread2 |]. split; [exact Hne2 |]. split; [apply lookup_insert_eq |].
    rewrite lookup_insert_ne by congruence. apply lookup_insert_eq.
Qed.

(** X10. [add_card] puts the card at the back: afterwards the card is read at
    the index that was the length and at index [-1], the cards that were in
    the deck keep their indices, and drawing the whole deck returns the old
    cards first and the added card last. *)
Theorem Deck_add_card_at_back (hash_str : string -> Z) (hash_tuple : list Z -> Z)
    (σ : gmap loc Obj) (self : loc) (d : Deck) (xs : list Card) (c : Card) :
  deck_at σ self d xs ->
  ∃ σ1 σ2,
    Deck_add_card hash_str hash_tuple (self, c) σ = (Ok VNone, σ1)
    ∧ Deck_getitem self (Z.of_nat (length xs)) σ1 = (Ok c, σ1)
    ∧ Deck_getitem self (- 1) σ1 = (Ok c, σ1)
    ∧ (forall (i : nat) (c' : Card),
          xs !! i = Some c' -> Deck_getitem self (Z.of_nat i) σ1 = (Ok c', σ1))
    ∧ draws (length xs + 1) self σ1 = (Ok ((VCard <$> xs) ++ [VCard c]), σ2).
Proof.
  intros H.
  assert (deck_at (<[_cards d := OList (xs ++ [c])]> σ) self d (xs ++ [c])) as H1
    by (eapply deck_at_set_list, H).
  assert ((xs ++ [c]) !! length xs = Some c) as Hc.
  { rewrite lookup_app_r by lia. rewrite Nat.sub_diag. reflexivity. }
  destruct (draws_all _ _ _ _ H1) as (σ2 & Hdraws & _).
  rewrite length_app, fmap_app in Hdraws. simpl in Hdraws.
  exists (<[_cards d := OList (xs ++ [c])]> σ), σ2.
  split; [apply (Deck_add_card_ok _ _ _ _ _ _ _ H) |].
  split; [apply (Deck_getitem_nat _ _ _ _ _ _ H1 Hc) |].
  split; [| split; [| exact Hdraws]].
  - unfold Deck_getitem. step_deck H1.
    change (- 1) with (- Z.of_nat 1). rewrite norm_index_back by (rewrite length_app; simpl; lia).
    rewrite length_app. simpl. replace (length xs + 1 - 1)%nat with (length xs) by lia.
    rewrite Hc. reflexivity.
  - intros i c' Hi. apply (Deck_getitem_nat _ _ _ _ _ _ H1).
    apply lookup_app_l_Some, Hi.
Qed.

(** X11. A duplicate stays until it is drawn.  After a card equal to the front
    card has been added to a deck without duplicates, reading [cards] raises
    [DeckCheatingError]; the failed read leaves the deck's cards as they were,
    so reading again raises again; one [draw] removes the front copy, and then
    [cards] returns a list. *)
Theorem Deck_duplicate_until_drawn (hash_str : string -> Z) (hash_tuple : list Z -> Z)
    (σ : gmap loc Obj) (self : loc) (d : Deck) (x : Card) (xs : list Card) :
  deck_at σ self d (x :: xs) ->
  NoDup (x :: xs) ->
  ∃ σ1 σ2 σ3 σ4 σ5 r,
    Deck_add_card hash_str hash_tuple (self, x) σ = (Ok VNone, σ1)
    ∧ Deck_cards hash_str hash_tuple self σ1
      = (Raise (DeckCheatingError "Duplicate cards detected!"), σ2)
    ∧ deck_at σ2 self d (x :: xs ++ [x])
    ∧ Deck_cards hash_str hash_tuple self σ2
      = (Raise (DeckCheatingError "Duplicate cards detected!"), σ3)
    ∧ Deck_draw self σ3 = (Ok (VCard x), σ4)
    ∧ deck_at σ4 self d (xs ++ [x])
    ∧ Deck_cards hash_str hash_tuple self σ4 = (Ok (VRef r), σ5).
Proof.
  intros H Hnd.
  assert (has_duplicate (x :: xs ++ [x])) as Hdup.
  { exists 0%nat, (S (length xs)), x, x. split; [lia |]. split; [reflexivity |].
    split; [| apply Card_eq_true_iff; reflexivity].
    simpl. rewrite lookup_app_r by lia. rewrite Nat.sub_diag. reflexivity. }
  assert (NoDup (xs ++ [x])) as Hnd'.
  { rewrite (Permutation_app_comm xs [x]). exact Hnd. }
  assert (deck_at (<[_cards d := OList (x :: xs ++ [x])]> σ) self d (x :: xs ++ [x])) as H1
    by (eapply (deck_at_set_list _ _ _ _ (x :: xs ++ [x])), H).
  destruct (Deck_cards_dup hash_str hash_tuple _ _ _ _ H1 Hdup) as (r1 & Hf1 & Hread1).
  assert (deck_at (<[r1 := OList (x :: xs ++ [x])]> (<[_cards d := OList (x :: xs ++ [x])]> σ))
            self d (x :: xs ++ [x])) as H2 by (apply deck_at_alloc; assumption).
  destruct (Deck_cards_dup hash_str hash_tuple _ _ _ _ H2 Hdup) as (r2 & Hf2 & Hread2).
  match type of Hread2 with _ = (_, ?τ) => set (σ3 := τ) in * end.
  assert (deck_at σ3 self d (x :: xs ++ [x])) as H3 by (apply deck_at_alloc; assumption).
  assert (deck_at (<[_cards d := OList (xs ++ [x])]> σ3) self d (xs ++ [x])) as H4
    by (eapply deck_at_set_list, H3).
  destruct (Deck_cards_NoDup hash_str hash_tuple _ _ _ _ H4 Hnd') as (r & _ & Hread4).
  eexists _, _, σ3, _, _, r.
  split; [apply (Deck_add_card_ok _ _ _ _ _ _ _ H) |].
  split; [exact Hread1 |]. split; [exact H2 |]. split; [exact Hread2 |].
  split; [apply (Deck_draw_cons _ _ _ _ _ H3) |]. split; [exact H4 | exact Hread4].
Qed.

Lemma recycle_cons (hash_str : string -> Z) (hash_tuple : list Z -> Z) σ self d x xs :
  deck_at σ self d (x :: xs) ->
  recycle hash_str hash_tuple self σ = (Ok VNone, <[_cards d := OList (xs ++ [x])]> σ).
Proof.
  intros H. unfold recycle, bind. rewrite (Deck_draw_cons _ _ _ _ _ H).
  rewrite (Deck_add_card_ok hash_str hash_tuple _ self d xs x);
    [| eapply deck_at_set_list, H].
  rewrite insert_insert_eq. reflexivity.
Qed.

(** X12. Drawing a card and adding it back moves the front card to the back.
    [k] such rounds on a deck of at least [k] cards bring the first [k] cards
    to the back in their order, and as many rounds as the deck has cards
    restore the deck: same cards in the same order. *)
Theorem recycles_rotate (hash_str : string -> Z) (hash_tuple : list Z -> Z)
    (σ : gmap loc Obj) (self : loc) (d : Deck) (xs : list Card) (k : nat) :
  deck_at σ self d xs ->
  (k <= length xs)%nat ->
  ∃ σ',
    recycles hash_str hash_tuple k self σ = (Ok tt, σ')
    ∧ deck_at σ' self d (drop k xs ++ take k xs)
    ∧ (k = length xs -> deck_at σ' self d xs)
    ∧ Deck_len self σ' = (Ok (Z.of_nat (length xs)), σ').
Proof.
  intros H Hk.
  assert (∃ σ', recycles hash_str hash_tuple k self σ = (Ok tt, σ')
                ∧ deck_at σ' self d (drop k xs ++ take k xs)) as (σ' & Hrun & Hend).
  { revert σ xs H Hk. induction k as [| k IH]; intros σ xs H Hk.
    - exists σ. split; [reflexivity |]. rewrite drop_0, app_nil_r. exact H.
    - destruct xs as [| x xs]; [simpl in Hk; lia |]. simpl in Hk.
      destruct (IH (<[_cards d := OList (xs ++ [x])]> σ) (xs ++ [x])) as (σ' & Hrun & Hend).
      + eapply deck_at_set_list, H.
      + rewrite length_app. simpl. lia.
      + exists σ'. split.
        * simpl. unfold bind. rewrite (recycle_cons _ _ _ _ _ _ _ H). exact Hrun.
        * rewrite drop_app_le, take_app_le in Hend by lia.
          rewrite <- app_assoc in Hend. exact Hend. }
  exists σ'. split; [exact Hrun |]. split; [exact Hend |]. split.
  - intros ->. rewrite drop_all, firstn_all in Hend. exact Hend.
  - rewrite (Deck_len_ok _ _ _ _ Hend), length_app, length_drop, length_take.
    do 3 f_equal. lia.
Qed.

(** * Texts of a card *)

Lemma NoDup_fmap_inj {A B : Type} (f : A -> B) (l : list A) (x y : A) :
  NoDup (f <$> l) -> x ∈ l -> y ∈ l -> f x = f y -> x = y.
Proof.
  intros Hnd Hx Hy Hxy.
  apply list_elem_of_lookup_1 in Hx as [i Hi]. apply list_elem_of_lookup_1 in Hy as [j Hj].
  assert (i = j) as ->.
  { apply (NoDup_lookup (f <$> l) i j (f x) Hnd).
    - rewrite list_lookup_fmap, Hi. reflexivity.
    - rewrite list_lookup_fmap, Hj, Hxy. reflexivity. }
  congruence.
Qed.

Lemma standard_cards_all (c : Card) : c ∈ standard_cards.
Proof. destruct c as [s r]. eapply list_elem_of_lookup_2, standard_cards_lookup. Qed.

(** X13. The texts of a card identify it: two cards with the same display
    name (which is also what [str] gives) are the same card, and so are two
    cards with the same [repr].  The [repr] names the rank before the suit,
    the reverse of the order in which [Card] takes them. *)
Theorem Card_texts_identify_card :
  (forall a b : Card, Card_get_display_name a = Card_get_display_name b -> a = b)
  ∧ (forall a b : Card, Card_str a = Card_str b -> a = b)
  ∧ (forall a b : Card, Card_repr a = Card_repr b -> a = b)
  ∧ (forall (s : CardSuit) (r : CardRank),
        Card_repr (mkCard s r)
        = ("Card(CardRank." +:+ Rank.name r +:+ ", CardSuit." +:+ Suit.name s +:+ ")")%string).
Proof.
  assert (NoDup (Card_get_display_name <$> standard_cards)) as Hname.
  { apply (bool_decide_unpack _). vm_compute. exact I. }
  assert (NoDup (Card_repr <$> standard_cards)) as Hrepr.
  { apply (bool_decide_unpack _). vm_compute. exact I. }
  split; [| split; [| split]].
  - intros a b. apply (NoDup_fmap_inj _ _ _ _ Hname); apply standard_cards_all.
  - intros a b. apply (NoDup_fmap_inj _ _ _ _ Hname); apply standard_cards_all.
  - intros a b. apply (NoDup_fmap_inj _ _ _ _ Hrepr); apply standard_cards_all.
  - intros s r. reflexivity.
Qed.

(** * The demonstration program *)

Lemma io_bind_print {B : Type} (s : string) (k : unit -> IO B)
    (out : list string) (σ : gmap loc Obj) :
  io_bind (print s) k (out, σ) = k tt (out ++ [s], σ).
Proof. reflexivity. Qed.

Lemma io_bind_lift {A B : Type} (m : M A) (k : A -> IO B) (a : A)
    (out : list string) (σ σ' : gmap loc Obj) :
  m σ = (Ok a, σ') -> io_bind (lift m) k (out, σ) = k a (out, σ').
Proof. intros Hm. unfold io_bind, lift. simpl. rewrite Hm. reflexivity. Qed.

Lemma io_bind_ret {A B : Type} (a : A) (k : A -> IO B) (w : list string * gmap loc Obj) :
  io_bind (io_ret a) k w = k a w.
Proof. reflexivity. Qed.

Lemma io_bind_assoc {A B C : Type} (m : IO A) (k : A -> IO B) (k' : B -> IO C)
    (w : list string * gmap loc Obj) :
  io_bind (io_bind m k) k' w = io_bind m (fun a => io_bind (k a) k') w.
Proof. unfold io_bind. destruct (m w) as [[a | e] w']; reflexivity. Qed.

Lemma io_for_each_print_from σ self d xs (i fuel : nat) (out : list string) :
  deck_at σ self d xs -> _index d = Z.of_nat i ->
  (i <= length xs)%nat -> (length xs - i < fuel)%nat ->
  io_for_each fuel self (fun c => print (Card_str c)) (out, σ)
  = (Ok (Some tt),
     (out ++ (Card_str <$> drop i xs),
      <[self := ODeck (mkDeck (_cards d) (Z.of_nat (length xs)))]> σ)).
Proof.
  revert σ d i out. induction fuel as [| fuel IH]; intros σ d i out H Hi Hle Hfuel; [lia |].
  simpl. unfold lift. simpl. destruct (decide (i = length xs)) as [-> | Hne].
  - rewrite (Deck_next_stop _ _ _ _ H) by lia.
    rewrite drop_all, app_nil_r, <- Hi, (deck_at_cursor _ _ _ _ H). reflexivity.
  - destruct (lookup_lt_is_Some_2 xs i) as [c Hc]; [lia |].
    rewrite (Deck_next_step _ _ _ _ _ _ H Hi Hc). unfold print at 1. simpl.
    rewrite (IH _ (mkDeck (_cards d) (Z.of_nat (S i))) (S i)).
    + rewrite insert_insert_eq, <- app_assoc. simpl.
      rewrite (drop_S _ _ _ Hc). reflexivity.
    + eapply deck_at_set_deck; [exact H | reflexivity].
    + reflexivity.
    + lia.
    + lia.
Qed.

Lemma has_duplicate_after_replacing (y c : Card) (ys : list Card) :
  NoDup (y :: ys) -> c ∈ y :: ys -> has_duplicate (ys ++ [c]) <-> y ≠ c.
Proof.
  intros Hnd Hin. apply NoDup_cons in Hnd as [Hy Hnd].
  rewrite <- not_NoDup_iff_has_duplicate, (Permutation_app_comm ys [c]). simpl.
  rewrite NoDup_cons. split.
  - intros Hdup ->. apply Hdup. split; assumption.
  - intros Hne [Hc _]. apply elem_of_cons in Hin as [-> | Hin]; [congruence | contradiction].
Qed.

(** X14. The demonstration program never raises, whatever the shuffle.  It
    prints 65 strings: the headings, the first five cards of the shuffled deck,
    the card drawn (the front card), the card added, the cards at indices 0 to
    4 after the draw, and then all 52 cards of the deck, the Ace of Hearts
    last.  The deck ends with 52 cards, and unless the card drawn was the Ace
    of Hearts it holds the Ace of Hearts twice, which nothing in the program
    notices. *)
Theorem main_runs_and_prints (hash_str : string -> Z) (hash_tuple : list Z -> Z)
    (rnd : list nat) (fuel : nat) (out : list string) (σ : gmap loc Obj) :
  (52 < fuel)%nat ->
  ∃ (y c0 c1 c2 c3 c4 : Card) (rest : list Card) (self : loc) (d : Deck) (σ' : gmap loc Obj),
    y :: c0 :: c1 :: c2 :: c3 :: c4 :: rest ≡ₚ standard_cards
    ∧ main hash_str hash_tuple rnd fuel (out, σ)
      = (Ok (Some tt),
         (out
          ++ ["Creating a shuffled deck:";
              "[" +:+ String.concat ", " (Card_repr <$> [y; c0; c1; c2; c3]) +:+ "]";
              nl +:+ "Drawing a card:";
              "Drawn card: " +:+ Card_str y;
              nl +:+ "Adding a new card:";
              "Added: Ace of Hearts";
              nl +:+ "Accessing cards directly by index:";
              "Card at index 0: " +:+ Card_str c0;
              "Card at index 1: " +:+ Card_str c1;
              "Card at index 2: " +:+ Card_str c2;
              "Card at index 3: " +:+ Card_str c3;
              "Card at index 4: " +:+ Card_str c4;
              nl +:+ "Iterating through remaining cards:"]
          ++ (Card_str <$> (c0 :: c1 :: c2 :: c3 :: c4 :: rest ++ [mkCard HEARTS ACE])),
          σ'))
    ∧ deck_at σ' self d (c0 :: c1 :: c2 :: c3 :: c4 :: rest ++ [mkCard HEARTS ACE])
    ∧ length (c0 :: c1 :: c2 :: c3 :: c4 :: rest ++ [mkCard HEARTS ACE]) = 52%nat
    ∧ (has_duplicate (c0 :: c1 :: c2 :: c3 :: c4 :: rest ++ [mkCard HEARTS ACE])
       <-> y ≠ mkCard HEARTS ACE).
Proof.
  intros Hfuel.
  destruct (Deck_init_run true rnd σ) as (self & σ0 & d & ys0 & Hrun & H0 & Hidx & Hys & _).
  assert (ys0 ≡ₚ standard_cards) as Hp by (subst ys0; apply fisher_yates_Permutation).
  clear Hys.
  assert (NoDup ys0) as Hnd by (rewrite Hp; exact standard_cards_NoDup).
  assert (length ys0 = 52%nat) as Hlen by (rewrite Hp; reflexivity).
  destruct ys0 as [| y [| c0 [| c1 [| c2 [| c3 [| c4 rest]]]]]]; try discriminate Hlen.
  set (ys := c0 :: c1 :: c2 :: c3 :: c4 :: rest) in *.
  set (AH := mkCard HEARTS ACE).
  destruct (Deck_cards_NoDup hash_str hash_tuple _ _ _ _ H0 Hnd) as (r & Hfr & Hread).
  assert (deck_at (<[r := OList (y :: ys)]> σ0) self d (y :: ys)) as H1
    by (apply deck_at_alloc; assumption).
  destruct (alloc_fresh (OList (take 5 (y :: ys))) (<[r := OList (y :: ys)]> σ0))
    as (r5 & Halloc & Hfr5).
  set (σ2 := <[r5 := OList (take 5 (y :: ys))]> (<[r := OList (y :: ys)]> σ0)) in *.
  assert (list_slice_to (VRef r) 5 (<[r := OList (y :: ys)]> σ0) = (Ok r5, σ2)) as Hslice.
  { unfold list_slice_to, bind, get_list. rewrite lookup_insert_eq. exact Halloc. }
  assert (list_str r5 σ2
          = (Ok ("[" +:+ String.concat ", " (Card_repr <$> [y; c0; c1; c2; c3]) +:+ "]")%string, σ2))
    as Hstr.
  { unfold list_str, bind, get_list, σ2. rewrite lookup_insert_eq. reflexivity. }
  assert (deck_at σ2 self d (y :: ys)) as H2 by (apply deck_at_alloc; assumption).
  pose proof (Deck_draw_cons _ _ _ _ _ H2) as Hdraw.
  assert (deck_at (<[_cards d := OList ys]> σ2) self d ys) as H3
    by (eapply deck_at_set_list, H2).
  pose proof (Deck_add_card_ok hash_str hash_tuple _ _ _ _ AH H3) as Hadd.
  set (σ4 := <[_cards d := OList (ys ++ [AH])]> (<[_cards d := OList ys]> σ2)) in *.
  assert (deck_at σ4 self d (ys ++ [AH])) as H4 by (eapply deck_at_set_list, H3).
  pose proof (Deck_iter_ok _ _ _ _ H4) as Hiter.
  assert (Deck_getitem self 0 σ4 = (Ok c0, σ4)) as Hg0
    by exact (Deck_getitem_nat _ _ _ _ 0%nat c0 H4 eq_refl).
  assert (Deck_getitem self 1 σ4 = (Ok c1, σ4)) as Hg1
    by exact (Deck_getitem_nat _ _ _ _ 1%nat c1 H4 eq_refl).
  assert (Deck_getitem self 2 σ4 = (Ok c2, σ4)) as Hg2
    by exact (Deck_getitem_nat _ _ _ _ 2%nat c2 H4 eq_refl).
  assert (Deck_getitem self 3 σ4 = (Ok c3, σ4)) as Hg3
    by exact (Deck_getitem_nat _ _ _ _ 3%nat c3 H4 eq_refl).
  assert (Deck_getitem self 4 σ4 = (Ok c4, σ4)) as Hg4
    by exact (Deck_getitem_nat _ _ _ _ 4%nat c4 H4 eq_refl).
  assert (deck_at (<[self := ODeck (mkDeck (_cards d) 0)]> σ4) self (mkDeck (_cards d) 0)
            (ys ++ [AH])) as H5 by (eapply deck_at_set_deck; [exact H4 | reflexivity]).
  assert (length (ys ++ [AH]) = 52%nat) as Hlen'.
  { rewrite length_app. simpl in Hlen |- *. lia. }
  exists y, c0, c1, c2, c3, c4, rest, self,
    (mkDeck (_cards d) (Z.of_nat (length (ys ++ [AH])))),
    (<[self := ODeck (mkDeck (_cards d) (Z.of_nat (length (ys ++ [AH]))))]> σ4).
  split; [exact Hp |]. split; [| split; [| split; [exact Hlen' |]]].
  - unfold main.
    rewrite io_bind_print. rewrite (io_bind_lift _ _ _ _ _ _ Hrun).
    rewrite (io_bind_lift _ _ _ _ _ _ Hread), (io_bind_lift _ _ _ _ _ _ Hslice).
    rewrite (io_bind_lift _ _ _ _ _ _ Hstr), !io_bind_print.
    rewrite (io_bind_lift _ _ _ _ _ _ Hdraw), !io_bind_print.
    rewrite (io_bind_lift _ _ _ _ _ _ Hadd), !io_bind_print.
    change (seqZ 0 5) with [0; 1; 2; 3; 4]. cbn [io_for_range].
    rewrite !io_bind_assoc, (io_bind_lift _ _ _ _ _ _ Hg0), io_bind_print.
    rewrite !io_bind_assoc, (io_bind_lift _ _ _ _ _ _ Hg1), io_bind_print.
    rewrite !io_bind_assoc, (io_bind_lift _ _ _ _ _ _ Hg2), io_bind_print.
    rewrite !io_bind_assoc, (io_bind_lift _ _ _ _ _ _ Hg3), io_bind_print.
    rewrite !io_bind_assoc, (io_bind_lift _ _ _ _ _ _ Hg4), io_bind_print.
    rewrite io_bind_ret, io_bind_print, (io_bind_lift _ _ _ _ _ _ Hiter).
    rewrite (io_for_each_print_from _ _ _ _ 0%nat fuel _ H5 eq_refl); [| lia | lia].
    rewrite insert_insert_eq, drop_0. cbn [_cards].
    rewrite <- !app_assoc. reflexivity.
  - eapply deck_at_set_deck; [exact H4 | reflexivity].
  - apply (has_duplicate_after_replacing y AH ys Hnd). rewrite Hp. apply standard_cards_all.
Qed.

(** * The further theorems at work on the sample store *)

Lemma Deck_shuffle_permutes_witness :
  deck_at sample_store 2%positive (mkDeck 1%positive 0) sample_cards
  ∧ ∃ ys σ', Deck_shuffle 2%positive [1; 0]%nat sample_store = (Ok VNone, σ')
             ∧ ys ≡ₚ sample_cards ∧ deck_at σ' 2%positive (mkDeck 1%positive 0) ys.
Proof.
  assert (deck_at sample_store 2%positive (mkDeck 1%positive 0) sample_cards) as H
    by (split; reflexivity).
  split; [exact H |].
  destruct (Deck_shuffle_permutes _ _ _ _ [1; 0]%nat H) as (ys & σ' & Hrun & Hat & Hp & _).
  exists ys, σ'. split; [exact Hrun |]. split; [exact Hp | exact Hat].
Defined.

Lemma Deck_getitem_domain_witness :
  deck_at sample_store 2%positive (mkDeck 1%positive 0) sample_cards
  ∧ Deck_getitem 2%positive (- 4) sample_store = (Raise IndexError, sample_store).
Proof.
  assert (deck_at sample_store 2%positive (mkDeck 1%positive 0) sample_cards) as H
    by (split; reflexivity).
  split; [exact H |].
  apply (proj1 (proj2 (Deck_getitem_domain _ _ _ _ (- 4) H))). simpl. lia.
Defined.

Lemma draws_past_the_end_witness :
  deck_at sample_store 2%positive (mkDeck 1%positive 0) sample_cards
  ∧ ∃ σ', draws (length sample_cards + 2) 2%positive sample_store
          = (Ok ((VCard <$> sample_cards) ++ replicate 2 VNone), σ').
Proof.
  assert (deck_at sample_store 2%positive (mkDeck 1%positive 0) sample_cards) as H
    by (split; reflexivity).
  split; [exact H |].
  destruct (draws_past_the_end _ _ _ _ 2%nat H) as (σ' & Hrun & _).
  exists σ'. exact Hrun.
Defined.

Lemma Deck_iter_shares_cursor_witness :
  deck_at sample_store 2%positive (mkDeck 1%positive 0) sample_cards
  ∧ ∃ σ1 σk, nexts 2 2%positive σ1 = (Ok (take 2 sample_cards), σk)
             ∧ Deck_iter 2%positive σk = (Ok 2%positive, σ1).
Proof.
  assert (deck_at sample_store 2%positive (mkDeck 1%positive 0) sample_cards) as H
    by (split; reflexivity).
  split; [exact H |].
  destruct (Deck_iter_shares_cursor _ _ _ _ 2%nat H) as (σ1 & σk & _ & Hn & Hi & _);
    [simpl; lia |].
  exists σ1, σk. split; [exact Hn | exact Hi].
Defined.

Lemma Deck_next_after_exhaustion_witness :
  deck_at sample_store 2%positive (mkDeck 1%positive 0) sample_cards
  ∧ ∃ σ1, iterate 4 2%positive sample_store = (Ok (Some sample_cards), σ1)
          ∧ Deck_next 2%positive σ1 = (Raise StopIteration, σ1).
Proof.
  assert (deck_at sample_store 2%positive (mkDeck 1%positive 0) sample_cards) as H
    by (split; reflexivity).
  split; [exact H |].
  destruct (Deck_next_after_exhaustion sample_hash_str sample_hash_tuple _ _ _ _ 4%nat H)
    as (σ1 & Hrun & Hstop & _); [simpl; lia |].
  exists σ1. split; [exact Hrun | exact Hstop].
Defined.

Lemma iterate_drawing_skips_witness :
  deck_at sample_store 2%positive (mkDeck 1%positive 0) sample_cards
  ∧ ∃ σ', iterate_drawing 4 2%positive sample_store
          = (Ok (Some [mkCard HEARTS TWO; mkCard SPADES ACE]), σ').
Proof.
  assert (deck_at sample_store 2%positive (mkDeck 1%positive 0) sample_cards) as H
    by (split; reflexivity).
  split; [exact H |].
  destruct (iterate_drawing_skips _ _ _ _ 4%nat H) as (σ' & d' & Hrun & _); [simpl; lia |].
  exists σ'. exact Hrun.
Defined.

Lemma Deck_cards_snapshot_is_frozen_witness :
  deck_at sample_store 2%positive (mkDeck 1%positive 0) sample_cards
  ∧ NoDup sample_cards
  ∧ ∃ r σ1, Deck_cards sample_hash_str sample_hash_tuple 2%positive sample_store
            = (Ok (VRef r), σ1)
            ∧ σ1 !! r = Some (OList sample_cards).
Proof.
  assert (deck_at sample_store 2%positive (mkDeck 1%positive 0) sample_cards) as H
    by (split; reflexivity).
  assert (NoDup sample_cards) as Hnd by (apply (bool_decide_unpack _); vm_compute; exact I).
  split; [exact H |]. split; [exact Hnd |].
  destruct (Deck_cards_snapshot_is_frozen sample_hash_str sample_hash_tuple _ _ _ _ H Hnd)
    as (r & σ1 & Hread & Hkeep & _).
  exists r, σ1. split; [exact Hread | exact Hkeep].
Defined.

Lemma Deck_add_card_at_back_witness :
  deck_at sample_store 2%positive (mkDeck 1%positive 0) sample_cards
  ∧ ∃ σ1, Deck_add_card sample_hash_str sample_hash_tuple
            (2%positive, mkCard DIAMONDS KING) sample_store = (Ok VNone, σ1)
          ∧ Deck_getitem 2%positive (- 1) σ1 = (Ok (mkCard DIAMONDS KING), σ1).
Proof.
  assert (deck_at sample_store 2%positive (mkDeck 1%positive 0) sample_cards) as H
    by (split; reflexivity).
  split; [exact H |].
  destruct (Deck_add_card_at_back sample_hash_str sample_hash_tuple _ _ _ _
              (mkCard DIAMONDS KING) H) as (σ1 & σ2 & Hadd & _ & Hlast & _).
  exists σ1. split; [exact Hadd | exact Hlast].
Defined.

Lemma Deck_duplicate_until_drawn_witness :
  deck_at sample_store 2%positive (mkDeck 1%positive 0) sample_cards
  ∧ NoDup sample_cards
  ∧ ∃ σ1 σ2, Deck_add_card sample_hash_str sample_hash_tuple
               (2%positive, mkCard HEARTS TWO) sample_store = (Ok VNone, σ1)
             ∧ Deck_cards sample_hash_str sample_hash_tuple 2%positive σ1
               = (Raise (DeckCheatingError "Duplicate cards detected!"), σ2).
Proof.
  assert (deck_at sample_store 2%positive (mkDeck 1%positive 0) sample_cards) as H
    by (split; reflexivity).
  assert (NoDup sample_cards) as Hnd by (apply (bool_decide_unpack _); vm_compute; exact I).
  split; [exact H |]. split; [exact Hnd |].
  destruct (Deck_duplicate_until_drawn sample_hash_str sample_hash_tuple _ _ _ _ _ H Hnd)
    as (σ1 & σ2 & _ & _ & _ & _ & Hadd & Hread & _).
  exists σ1, σ2. split; [exact Hadd | exact Hread].
Defined.

Lemma recycles_rotate_witness :
  deck_at sample_store 2%positive (mkDeck 1%positive 0) sample_cards
  ∧ ∃ σ', recycles sample_hash_str sample_hash_tuple 3 2%positive sample_store = (Ok tt, σ')
          ∧ deck_at σ' 2%positive (mkDeck 1%positive 0) sample_cards.
Proof.
  assert (deck_at sample_store 2%positive (mkDeck 1%positive 0) sample_cards) as H
    by (split; reflexivity).
  split; [exact H |].
  destruct (recycles_rotate sample_hash_str sample_hash_tuple _ _ _ _ 3%nat H)
    as (σ' & Hrun & _ & Hsame & _); [simpl; lia |].
  exists σ'. split; [exact Hrun | apply Hsame; reflexivity].
Defined.

Lemma main_runs_and_prints_witness :
  (53 > 52)%nat
  ∧ (main sample_hash_str sample_hash_tuple [3; 1; 4]%nat 53 ([], ∅)).1 = Ok (Some tt).
Proof.
  assert (52 < 53)%nat as Hfuel by lia.
  split; [exact Hfuel |].
  destruct (main_runs_and_prints sample_hash_str sample_hash_tuple [3; 1; 4]%nat 53 [] ∅ Hfuel)
    as (y & c0 & c1 & c2 & c3 & c4 & rest & self & d & σ' & _ & Hmain & _).
  rewrite Hmain. reflexivity.
Defined.
